(** * Duplicate-key audit scripts: a shallow embedding and its properties

    The development follows the JavaScript sources of the repository:
    - [scripts/findDuplicates/utils/index.js]: [generateConfigs], which turns
      the failure report of an index build into a scan plan;
    - the first driver ([loadConfigs], [findDuplicates], main), module [Driver1];
    - the second driver (the same three, plus the [meta.rels] lookup),
      module [Driver2];
    - the index audit script, module [IndexAudit].

    JavaScript values are an inductive type, exceptions and [process.exit]
    are outcomes of a small state-and-error monad, the console and the file
    system are the state, and the document store is a record of what it
    holds and of which of its calls fail. *)

From Stdlib Require Import ZArith String Ascii List Sorting.Sorted Lia.
From stdpp Require Import base option list strings gmap pretty.

Open Scope string_scope.
Open Scope Z_scope.
Open Scope list_scope.

(** ** JavaScript values *)

(** A number is an integer, or any other number (a fraction, an infinity,
    [NaN]) carried by its printed form.  The scripts only test numbers for
    truthiness and for being [11000], and print them.  [Int z] stands for
    an integer that prints in decimal digits, one below [10^21] in
    magnitude; a larger number is a [NonInt] with the exponent form it
    prints in.  Strings are sequences of ASCII characters, so that a
    character is one code unit and one code point. *)
Inductive number :=
| Int (z : Z)
| NonInt (text : string).

#[warnings="-register-all"] Inductive value :=
| Undefined
| Null
| Bool (b : bool)
| Num (n : number)
| Str (s : string)
| Arr (items : list value)
| Obj (props : list (string * value)).
(** [Obj props] lists the own properties in insertion order. *)

Definition number_eqb (a b : number) : bool :=
  match a, b with
  | Int x, Int y => Z.eqb x y
  | NonInt x, NonInt y => String.eqb x y
  | _, _ => false
  end.

Fixpoint value_eqb (a b : value) {struct a} : bool :=
  match a, b with
  | Undefined, Undefined => true
  | Null, Null => true
  | Bool x, Bool y => Bool.eqb x y
  | Num x, Num y => number_eqb x y
  | Str x, Str y => String.eqb x y
  | Arr xs, Arr ys =>
      (fix items_eqb (xs ys : list value) {struct xs} : bool :=
         match xs, ys with
         | [], [] => true
         | x :: xs', y :: ys' => value_eqb x y && items_eqb xs' ys'
         | _, _ => false
         end) xs ys
  | Obj ps, Obj qs =>
      (fix props_eqb (ps qs : list (string * value)) {struct ps} : bool :=
         match ps, qs with
         | [], [] => true
         | (k, x) :: ps', (l, y) :: qs' =>
             String.eqb k l && value_eqb x y && props_eqb ps' qs'
         | _, _ => false
         end) ps qs
  | _, _ => false
  end.

(** Truthiness, as [!x], [x || y] and [x && y] use it. *)
Definition truthy (v : value) : bool :=
  match v with
  | Undefined | Null => false
  | Bool b => b
  | Num (Int z) => negb (Z.eqb z 0)
  | Num (NonInt text) => negb (String.eqb text "NaN")
  | Str s => negb (String.eqb s EmptyString)
  | Arr _ | Obj _ => true
  end.

(** [x === 11000] *)
Definition is_11000 (v : value) : bool :=
  match v with
  | Num (Int z) => Z.eqb z 11000
  | _ => false
  end.

Definition Array_isArray (v : value) : bool :=
  match v with Arr _ => true | _ => false end.

(** ** Property keys *)

Definition digit_of (a : ascii) : option N :=
  let n := N_of_ascii a in
  if ((48 <=? n) && (n <=? 57))%N then Some (n - 48)%N else None.

Fixpoint parse_digits (s : string) (acc : N) : option N :=
  match s with
  | EmptyString => Some acc
  | String a s' =>
      match digit_of a with
      | Some d => parse_digits s' (10 * acc + d)%N
      | None => None
      end
  end.

(** A key is an array index when it is the canonical decimal form of an
    integer below 2^32 - 1. *)
Definition array_index (k : string) : option N :=
  match parse_digits k 0%N with
  | Some n =>
      if String.eqb (pretty n) k && (n <? 4294967295)%N && negb (String.eqb k EmptyString)
      then Some n else None
  | None => None
  end.

Fixpoint insert_by_index (e : N * string) (l : list (N * string)) : list (N * string) :=
  match l with
  | [] => [e]
  | x :: l' => if (fst e <? fst x)%N then e :: l else x :: insert_by_index e l'
  end.

(** Own keys in enumeration order: array indices ascending, then the other
    keys in insertion order. *)
Definition ordered_keys (keys : list string) : list string :=
  let indices :=
    fold_right insert_by_index []
      (omap (fun k => (fun n => (n, k)) <$> array_index k) keys) in
  map snd indices ++ filter (fun k => array_index k = None) keys.

Definition index_keys (n : nat) : list string :=
  map (fun i => pretty (N.of_nat i)) (seq 0 n).

(** The keys a [for (const k in v)] loop visits.  A parsed JSON value
    inherits no enumerable property, so every key is an own key and the
    [hasOwnProperty] guard of the source lets every one through. *)
Definition for_in_keys (v : value) : list string :=
  match v with
  | Obj props => ordered_keys (map fst props)
  | Arr items => index_keys (length items)
  | Str s => index_keys (String.length s)
  | _ => []
  end.

Fixpoint assoc {A} (k : string) (props : list (string * A)) : option A :=
  match props with
  | [] => None
  | (k', v) :: rest => if String.eqb k k' then Some v else assoc k rest
  end.

(** [o[k] = v] on an object used as a dictionary. *)
Fixpoint obj_set {A} (k : string) (v : A) (props : list (string * A))
  : list (string * A) :=
  match props with
  | [] => [(k, v)]
  | (k', v') :: rest =>
      if String.eqb k k' then (k, v) :: rest else (k', v') :: obj_set k v rest
  end.

(** [o[k] = v] where [v] is an object or an array: the key [__proto__]
    names the prototype of [o], and assigning to it gives [o] no property
    of its own. *)
Definition obj_assign {A} (k : string) (v : A) (props : list (string * A))
  : list (string * A) :=
  if String.eqb k "__proto__" then props else obj_set k v props.

(** [Object.entries(o)] *)
Definition Object_entries {A} (props : list (string * A)) : list (string * A) :=
  omap (fun k => (fun v => (k, v)) <$> assoc k props) (ordered_keys (map fst props)).

Fixpoint string_nth (n : nat) (s : string) : option ascii :=
  match s, n with
  | EmptyString, _ => None
  | String a _, O => Some a
  | String _ s', S n' => string_nth n' s'
  end.

(** ** Outcomes *)

Inductive error :=
| TypeError (what : string)
| SyntaxError
| ENOENT (path : string)
| WriteFailed (path : string)
| MkdirFailed (path : string)
| MongoError (what : string)
| ConfigReadError (filePath : string) (cause : error).

Inductive result (A : Type) :=
| Ok (a : A)
| Throw (e : error)
| Exit (code : Z).
Arguments Ok {A} a.
Arguments Throw {A} e.
Arguments Exit {A} code.

Definition result_bind {A B} (r : result A) (k : A -> result B) : result B :=
  match r with
  | Ok a => k a
  | Throw e => Throw e
  | Exit c => Exit c
  end.

#[global] Instance result_ret : MRet result := fun _ a => Ok a.
#[global] Instance result_mbind : MBind result := fun _ _ k r => result_bind r k.

(** A computation that does not end the process. *)
Definition no_exit {A} (r : result A) : Prop := forall c, r <> Exit c.

(** [v[k]] and [v.k]: reading a property of [undefined] or [null] throws;
    primitives and arrays answer from their own indices and [length]. *)
Definition get (v : value) (k : string) : result value :=
  match v with
  | Undefined | Null => Throw (TypeError k)
  | Obj props => Ok (default Undefined (assoc k props))
  | Arr items =>
      if String.eqb k "length" then Ok (Num (Int (Z.of_nat (length items))))
      else Ok (default Undefined (n ← array_index k; items !! N.to_nat n))
  | Str s =>
      if String.eqb k "length" then Ok (Num (Int (Z.of_nat (String.length s))))
      else Ok (default Undefined
                 (n ← array_index k; a ← string_nth (N.to_nat n) s;
                  Some (Str (String a EmptyString))))
  | Bool _ | Num _ => Ok Undefined
  end.

(** String coercion, as template literals and property keys apply it. *)
Definition number_to_string (n : number) : string :=
  match n with
  | Int z => pretty z
  | NonInt text => text
  end.

Fixpoint join (sep : string) (parts : list string) : string :=
  match parts with
  | [] => EmptyString
  | [p] => p
  | p :: rest => p +:+ sep +:+ join sep rest
  end.

Fixpoint to_string (v : value) : string :=
  match v with
  | Undefined => "undefined"
  | Null => "null"
  | Bool true => "true"
  | Bool false => "false"
  | Num n => number_to_string n
  | Str s => s
  | Arr items =>
      join ","
        ((fix each (l : list value) : list string :=
            match l with
            | [] => []
            | x :: l' =>
                match x with
                | Undefined | Null => EmptyString
                | _ => to_string x
                end :: each l'
            end) items)
  | Obj _ => "[object Object]"
  end.

(** [s.includes(t)] on strings *)
Fixpoint includes (s t : string) : bool :=
  String.prefix t s ||
  match s with
  | EmptyString => false
  | String _ s' => includes s' t
  end.

(** [s.replace(/_1$/, '')]: the pattern is tried at each position from the
    left, and it matches where what remains of the string is exactly [_1]. *)
Fixpoint replace_1_at_end (s : string) : string :=
  if String.eqb s "_1" then EmptyString
  else match s with
       | EmptyString => EmptyString
       | String a s' => String a (replace_1_at_end s')
       end.

(** ** Console, files and the monad of the scripts *)

(** A file holds the text of a JSON value, or text that [JSON.parse]
    rejects. *)
Inductive content :=
| Json (v : value)
| NotJson.

Inductive line :=
| GeneratedConfig (outputFile : string)
| GenerationFailed (err : error)
| ConfigReadFailed (configFile : string) (err : error)
| Uncaught (err : error)
| BadConfig (config : value)
| ProcessingCollection (collectionName : value)
| CheckingField (field : value)
| DuplicatesFound (field collectionName : value)
| NoDuplicates (field collectionName : value)
| QueryingMetaRels (collectionName : value)
| MetaRelsNotFound (collectionName : value)
| QueryFailed (err : error)
| Summary (json : content)
| MkdirError (outputDir : string) (err : error)
| ReportWritten (collectionName filename : string)
| ReportWriteFailed (collectionName : string) (err : error).

Record state := {
  console : list line;
  files : gmap string content
}.

Definition M (A : Type) : Type := state -> result A * state.

#[global] Instance M_ret : MRet M := fun _ a s => (Ok a, s).
#[global] Instance M_bind : MBind M := fun _ _ k m s =>
  match m s with
  | (Ok a, s') => k a s'
  | (Throw e, s') => (Throw e, s')
  | (Exit c, s') => (Exit c, s')
  end.

Definition lift {A} (r : result A) : M A := fun s => (r, s).

Definition throw {A} (e : error) : M A := lift (Throw e).

(** [process.exit(code)] ends the run; no handler catches it. *)
Definition process_exit {A} (code : Z) : M A := lift (Exit code).

(** [try { body } catch (err) { handler }] *)
Definition try_catch {A} (body : M A) (handler : error -> M A) : M A := fun s =>
  match body s with
  | (Throw e, s') => handler e s'
  | other => other
  end.

(** [try { body } finally { last }], also after a [catch]: [last] runs
    however [body] ends, unless the process has exited; when [last] throws,
    its exception is the outcome. *)
Definition try_finally {A} (body : M A) (last : M unit) : M A := fun s =>
  match body s with
  | (Exit c, s') => (Exit c, s')
  | (outcome, s') =>
      match last s' with
      | (Ok _, s'') => (outcome, s'')
      | (Throw e, s'') => (Throw e, s'')
      | (Exit c, s'') => (Exit c, s'')
      end
  end.

(** The block of a [try] whose exception is kept for the handler while the
    variables declared outside it keep what the block did to them. *)
Definition attempt {A} (body : M A) : M (A + error) :=
  try_catch (a ← body; mret (inl a)) (fun e => mret (inr e)).

Definition log (l : line) : M unit := fun s =>
  (Ok tt, {| console := console s ++ [l]; files := files s |}).

Definition readFile (path : string) : M content := fun s =>
  match files s !! path with
  | Some c => (Ok c, s)
  | None => (Throw (ENOENT path), s)
  end.

Definition JSON_parse (c : content) : result value :=
  match c with
  | Json v => Ok v
  | NotJson => Throw SyntaxError
  end.

(** The numbers [JSON.stringify] writes as [null]. *)
Definition non_finite (text : string) : bool :=
  String.eqb text "NaN" || String.eqb text "Infinity" || String.eqb text "-Infinity".

(** What [JSON.stringify] keeps of a value: a property whose value is
    [undefined] is left out, an [undefined] array item and a number that is
    not finite are written [null]. *)
Fixpoint stringified (v : value) : value :=
  match v with
  | Num (NonInt text) => if non_finite text then Null else v
  | Arr items =>
      Arr ((fix each (l : list value) : list value :=
              match l with
              | [] => []
              | Undefined :: l' => Null :: each l'
              | x :: l' => stringified x :: each l'
              end) items)
  | Obj props =>
      Obj ((fix each (l : list (string * value)) : list (string * value) :=
              match l with
              | [] => []
              | (_, Undefined) :: l' => each l'
              | (k, x) :: l' => (k, stringified x) :: each l'
              end) props)
  | _ => v
  end.

Definition JSON_stringify (v : value) : content := Json (stringified v).

(** ** Paths *)

(** The parts of a path between its [/]. *)
Fixpoint split_path (p : string) : list string :=
  match p with
  | EmptyString => [EmptyString]
  | String a p' =>
      if Ascii.eqb a "/" then EmptyString :: split_path p'
      else match split_path p' with
           | part :: rest => String a part :: rest
           | [] => [String a EmptyString]
           end
  end.

Definition is_absolute (p : string) : bool :=
  match p with
  | String a _ => Ascii.eqb a "/"
  | EmptyString => false
  end.

(** The arguments [path.resolve] reads: from the right, up to the first
    absolute one; an empty argument is passed over. *)
Fixpoint resolved_from (segments : list string) : bool * list string :=
  match segments with
  | [] => (false, [])
  | p :: rest =>
      let '(absolute, read) := resolved_from rest in
      if absolute then (true, read)
      else if String.eqb p EmptyString then (false, read)
      else (is_absolute p, p :: read)
  end.

(** Normalisation: an empty part and [.] go, [..] takes away the part
    before it.  Above the root [..] goes as well; above the start of a
    relative path it stays.  [kept] holds the parts kept so far, the last
    one first. *)
Fixpoint normalize_parts (relative : bool) (parts kept : list string) : list string :=
  match parts with
  | [] => rev kept
  | p :: rest =>
      if String.eqb p EmptyString || String.eqb p "." then normalize_parts relative rest kept
      else if String.eqb p ".." then
        match kept with
        | [] => normalize_parts relative rest (if relative then [".."] else [])
        | top :: below =>
            if String.eqb top ".." then normalize_parts relative rest (".." :: kept)
            else normalize_parts relative rest below
        end
      else normalize_parts relative rest (p :: kept)
  end.

(** [path.resolve(...segments)] (POSIX).  Without an absolute argument the
    resolution starts from the working directory of the process; that
    directory is left out of the result, so that a result that does not
    begin with [/] is a path from the working directory, [.] is the
    working directory itself and a leading [..] is a step above it.  The
    files of the model are known by such paths. *)
Definition path_resolve (segments : list string) : string :=
  let '(absolute, read) := resolved_from segments in
  let parts := normalize_parts (negb absolute) (flat_map split_path read) [] in
  if absolute then "/" +:+ join "/" parts
  else match parts with
       | [] => "."
       | _ => join "/" parts
       end.
Arguments path_resolve : simpl never.

(** A name without [/]. *)
Fixpoint plain_name (n : string) : bool :=
  match n with
  | EmptyString => true
  | String a n' => negb (Ascii.eqb a "/") && plain_name n'
  end.


Section Host.
(** Which writes and directory creations the host file system accepts. *)
Variable write_ok : string -> bool.
Variable mkdir_ok : string -> bool.

Definition writeFile (path : string) (c : content) : M unit := fun s =>
  if write_ok path
  then (Ok tt, {| console := console s; files := <[path := c]> (files s) |})
  else (Throw (WriteFailed path), s).

(** [fs.mkdir(dir, { recursive: true })]; directories are not files. *)
Definition mkdir (dir : string) : M unit := fun s =>
  if mkdir_ok dir then (Ok tt, s) else (Throw (MkdirFailed dir), s).
End Host.

(** ** scripts/findDuplicates/utils/index.js *)

Module Utils.

Definition inputFile : string := path_resolve ["input"; "updateIndex.failure.json"].
Definition outputFile : string :=
  path_resolve ["output"; "duplicates_json"; "duplicateKeys.json"].

(** [indexData.err.code ||
     (indexData.err.errorResponse && indexData.err.errorResponse.code)] *)
Definition errCode (indexData : value) : result value :=
  err ← get indexData "err";
  code ← get err "code";
  if truthy code then Ok code
  else
    errorResponse ← get err "errorResponse";
    if truthy errorResponse then get errorResponse "code" else Ok errorResponse.

(** The body of the inner loop: what one index entry does to [fields]. *)
Definition index_step (indexes : value) (indexName : string) (fields : list string)
  : result (list string) :=
  indexData ← get indexes indexName;
  code ← errCode indexData;
  if is_11000 code
  then Ok (fields ++ [replace_1_at_end indexName])
  else Ok fields.

Fixpoint index_loop (indexes : value) (indexNames : list string) (fields : list string)
  : result (list string) :=
  match indexNames with
  | [] => Ok fields
  | indexName :: rest =>
      fields' ← index_step indexes indexName fields;
      index_loop indexes rest fields'
  end.

Record config := { collection : string; fields : list string }.

(** The body of the outer loop. *)
Definition collection_step (data : value) (collectionName : string)
           (newConfigs : list config) : result (list config) :=
  indexes ← get data collectionName;
  fields ← index_loop indexes (for_in_keys indexes) [];
  if (0 <? length fields)%nat
  then Ok (newConfigs ++ [{| collection := collectionName; fields := fields |}])
  else Ok newConfigs.

Fixpoint collection_loop (data : value) (collectionNames : list string)
         (newConfigs : list config) : result (list config) :=
  match collectionNames with
  | [] => Ok newConfigs
  | collectionName :: rest =>
      newConfigs' ← collection_step data collectionName newConfigs;
      collection_loop data rest newConfigs'
  end.

Definition config_value (c : config) : value :=
  Obj [("collection", Str (collection c)); ("fields", Arr (map Str (fields c)))].

Section Host.
Variable write_ok : string -> bool.

Definition generateConfigs : M unit :=
  try_catch
    (content ← readFile inputFile;
     data ← lift (JSON_parse content);
     newConfigs ← lift (collection_loop data (for_in_keys data) []);
     writeFile write_ok outputFile
       (JSON_stringify (Arr (map config_value newConfigs)));;
     log (GeneratedConfig outputFile))
    (fun err => log (GenerationFailed err)).
End Host.

End Utils.

(** ** The document store *)

(** What the scripts see of MongoDB: the documents of each collection, how
    the store evaluates a field path on a document and compares two group
    keys, the answer of [findOne], and which calls throw. *)
Record Store := {
  connect_ok : bool;
  collection_ok : value -> bool;
  documents : value -> list value;
  eval_path : string -> value -> option value;
  same_key : value -> value -> bool;
  aggregate_ok : value -> string -> bool;
  findOne_ok : string -> value -> bool;
  findOne_doc : string -> value -> option value
}.


(** One output document of the pipeline: [{ _id, count, docs }]. *)
Record group := { _id : value; count : Z; docs : list value }.

Record entry := { field : value; duplicates : list group }.

(** What [$sum: 1] and [$push] keep in step. *)
Definition counted (g : group) : Prop := count g = Z.of_nat (length (docs g)).

(** A duplicate group has as many members as it counts, and more than one. *)
Definition duplicate_group (g : group) : Prop :=
  count g = Z.of_nat (length (docs g)) /\ 1 < count g.

(** Descending order of the counts. *)
Definition descending (groups : list group) : Prop :=
  StronglySorted (fun g h => count h <= count g) groups.

Definition group_value (g : group) : value :=
  Obj [("_id", _id g); ("count", Num (Int (count g))); ("docs", Arr (docs g))].

Definition entry_value (e : entry) : value :=
  Obj [("field", field e); ("duplicates", Arr (map group_value (duplicates e)))].

(** [for (const x of v)]; a string is walked by its code points, which
    for the ASCII strings of the model are its characters. *)
Definition iterate (v : value) : result (list value) :=
  match v with
  | Arr items => Ok items
  | Str s => Ok (map (fun a => Str (String a EmptyString)) (list_ascii_of_string s))
  | _ => Throw (TypeError "not iterable")
  end.

Section Pipeline.
Variable db : Store.

(** [$group] with the accumulators [count: { $sum: 1 }] and
    [docs: { $push: { _id: <id> } }]: a document joins the group of its
    key, or opens one. *)
Fixpoint group_push (key pushed : value) (groups : list group) : list group :=
  match groups with
  | [] => [{| _id := key; count := 1; docs := [pushed] |}]
  | g :: rest =>
      if same_key db (_id g) key
      then {| _id := _id g; count := count g + 1; docs := docs g ++ [pushed] |} :: rest
      else g :: group_push key pushed rest
  end.

Definition stage_group (key_expr id_expr : string) (input : list value) : list group :=
  fold_left
    (fun groups d =>
       group_push
         (default Null (eval_path db key_expr d))
         (Obj (match eval_path db id_expr d with
               | Some id => [("_id", id)]
               | None => []
               end))
         groups)
    input [].

(** [{ $match: { count: { $gt: 1 } } }] *)
Definition stage_match (groups : list group) : list group :=
  filter (fun g => 1 < count g) groups.

(** [{ $sort: { count: -1 } }] *)
Fixpoint sort_insert (g : group) (sorted : list group) : list group :=
  match sorted with
  | [] => [g]
  | h :: rest => if count h <=? count g then g :: sorted else h :: sort_insert g rest
  end.

Definition stage_sort (groups : list group) : list group :=
  fold_right sort_insert [] groups.

Definition pipeline (key_expr id_expr : string) (input : list value) : list group :=
  stage_sort (stage_match (stage_group key_expr id_expr input)).

(** [await client.connect()] *)
Definition connect : M unit :=
  if connect_ok db then mret tt else throw (MongoError "connect").

(** [db.collection(collectionName)] *)
Definition open_collection (collectionName : value) : M unit :=
  if collection_ok db collectionName then mret tt else throw (MongoError "collection").

(** [await collection.aggregate(pipeline).toArray()] *)
Definition aggregate (collectionName : value) (key_expr id_expr : string)
  : M (list group) :=
  if aggregate_ok db collectionName key_expr
  then mret (pipeline key_expr id_expr (documents db collectionName))
  else throw (MongoError "aggregate").

(** [await db.collection(name).findOne(filter)]: the document, or [null]. *)
Definition findOne (name : string) (filter : value) : M value :=
  if findOne_ok db name filter
  then mret (default Null (findOne_doc db name filter))
  else throw (MongoError "findOne").

(** The loop over the fields of one target, the same in both drivers but
    for the expression that names the pushed identifier. *)
Fixpoint field_loop (id_expr : string) (collectionName : value) (fields : list value)
         (collectionResults : list entry) : M (list entry) :=
  match fields with
  | [] => mret collectionResults
  | field :: rest =>
      log (CheckingField field);;
      duplicates ← aggregate collectionName ("$" +:+ to_string field) id_expr;
      if (0 <? length duplicates)%nat
      then
        log (DuplicatesFound field collectionName);;
        field_loop id_expr collectionName rest
          (collectionResults ++ [{| field := field; duplicates := duplicates |}])
      else
        log (NoDuplicates field collectionName);;
        field_loop id_expr collectionName rest collectionResults
  end.
End Pipeline.

(** ** The client *)

(** What a script sees of its [MongoClient] besides the store:
    [new MongoClient(uri)] reads the connection string, which comes from
    the environment, and throws when it cannot; [await client.close()] can
    reject. *)
Record Client := { uri_ok : bool; close_ok : bool }.

(** [new MongoClient(uri)] *)
Definition new_MongoClient (client : Client) : M unit :=
  if uri_ok client then mret tt else throw (MongoError "MongoClient").

(** [await client.close()] *)
Definition close (client : Client) : M unit :=
  if close_ok client then mret tt else throw (MongoError "close").

(** An entry as the field loop builds it: the groups are what the pipeline
    gave for the entry's field, and there is at least one. *)
Definition scanned (db : Store) (id_expr : string) (collectionName : value) (e : entry)
  : Prop :=
  duplicates e =
    pipeline db ("$" +:+ to_string (field e)) id_expr (documents db collectionName)
  /\ duplicates e <> [].

(** ** The first driver *)

Module Driver1.
Section Run.
Variable db : Store.
Variable write_ok : string -> bool.
Variable mkdir_ok : string -> bool.

Definition loadConfigs (configFile : string) : M value :=
  try_catch
    (data ← readFile configFile;
     lift (JSON_parse data))
    (fun err => log (ConfigReadFailed configFile err);; process_exit 1).

(** [resultsByCollection]: an object from collection name to entries. *)
Definition results_object : Type := list (string * list entry).

(** A property of [resultsByCollection] as the scanner fills it: at least
    one entry, each one scanned from a collection of that name. *)
Definition scanned_results (kv : string * list entry) : Prop :=
  snd kv <> []
  /\ exists collectionName,
       fst kv = to_string collectionName
       /\ Forall (scanned db "$$ROOT._id" collectionName) (snd kv).

(** The body of the loop over the targets. *)
Definition config_step (config : value) (resultsByCollection : results_object)
  : M results_object :=
  collectionName ← lift (get config "collection");
  fields ← lift (get config "fields");
  if negb (truthy collectionName) || negb (Array_isArray fields)
  then log (BadConfig config);; mret resultsByCollection
  else
    log (ProcessingCollection collectionName);;
    open_collection db collectionName;;
    items ← lift (iterate fields);
    collectionResults ← field_loop db "$$ROOT._id" collectionName items [];
    if (0 <? length collectionResults)%nat
    then mret (obj_assign (to_string collectionName) collectionResults resultsByCollection)
    else mret resultsByCollection.

(** The loop returns [resultsByCollection] as the iterations left it,
    with the exception in flight when one of them threw: the object is
    declared outside the [try], so it keeps what was stored before. *)
Fixpoint config_loop (configs : list value) (resultsByCollection : results_object)
  : M (results_object * option error) :=
  match configs with
  | [] => mret (resultsByCollection, None)
  | config :: rest =>
      r ← attempt (config_step config resultsByCollection);
      match r with
      | inl resultsByCollection' => config_loop rest resultsByCollection'
      | inr error => mret (resultsByCollection, Some error)
      end
  end.

Definition try_block (configs : value) : M (results_object * option error) :=
  r ← attempt (connect db;; lift (iterate configs));
  match r with
  | inl items => config_loop items []
  | inr error => mret ([], Some error)
  end.

(** [findDuplicates] from its [try] on, with the handler of the [catch]
    and the value returned: what the function does with a client that is
    made, up to the closing of that client. *)
Definition findDuplicates (configs : value) : M results_object :=
  '(resultsByCollection, thrown) ← try_block configs;
  match thrown with
  | Some error => log (QueryFailed error)
  | None => mret tt
  end;;
  mret resultsByCollection.

Variable client : Client.

(** The whole call [findDuplicates(configs, { uri, dbName })]: the client
    is made before the [try] and closed in the [finally]; an exception of
    either leaves the function. *)
Definition findDuplicates_call (configs : value) : M results_object :=
  new_MongoClient client;;
  try_finally (findDuplicates configs) (close client).

Definition default_configFile : string := "output/duplicateKeys.json".
Definition outputDir : string := "output/duplicaties_json".

Definition report_filename (collectionName : string) : string :=
  outputDir +:+ "/" +:+ collectionName +:+ "_duplicates.json".

(** [resultsByCollection] as [JSON.stringify] writes it, the keys in
    enumeration order. *)
Definition results_value (r : results_object) : value :=
  Obj (map (fun kv => (fst kv, Arr (map entry_value (snd kv)))) (Object_entries r)).

Definition report (collectionName : string) (results : list entry) : value :=
  Obj [("collection", Str collectionName); ("results", Arr (map entry_value results))].

Fixpoint write_loop (entries : list (string * list entry)) : M unit :=
  match entries with
  | [] => mret tt
  | (collectionName, results) :: rest =>
      let filename := report_filename collectionName in
      try_catch
        (writeFile write_ok filename (JSON_stringify (report collectionName results));;
         log (ReportWritten collectionName filename))
        (fun err => log (ReportWriteFailed collectionName err));;
      write_loop rest
  end.

Definition main : M unit :=
  Utils.generateConfigs write_ok;;
  configs ← loadConfigs default_configFile;
  duplicatesResults ← findDuplicates_call configs;
  log (Summary (JSON_stringify (results_value duplicatesResults)));;
  try_catch (mkdir mkdir_ok outputDir)
    (fun err => log (MkdirError outputDir err);; process_exit 1);;
  write_loop (Object_entries duplicatesResults).
End Run.
End Driver1.

(** ** The second driver *)

Module Driver2.

(** [resultObj]; a cardinality is [None] while its property was never
    assigned. *)
Record resultObj := {
  collection : value;
  results : list entry;
  destCardinality : option value;
  sourceCardinality : option value
}.

(** [collectionName.includes("rels")]: a string searches itself, an array
    searches its items, and no other value has the method. *)
Definition includes_rels (collectionName : value) : result bool :=
  match collectionName with
  | Str s => Ok (includes s "rels")
  | Arr items => Ok (existsb (value_eqb (Str "rels")) items)
  | _ => Throw (TypeError "includes")
  end.

(** [v && v.k] *)
Definition and_get (v : value) (k : string) : result value :=
  if truthy v then get v k else Ok v.

Definition resultObj_value (r : resultObj) : value :=
  Obj ([("collection", collection r); ("results", Arr (map entry_value (results r)))]
       ++ match destCardinality r with
          | Some v => [("destCardinality", v)]
          | None => []
          end
       ++ match sourceCardinality r with
          | Some v => [("sourceCardinality", v)]
          | None => []
          end).

(** A collection result as the scanner builds it: at least one entry,
    each one scanned from the result's collection. *)
Definition scanned_collection (db : Store) (r : resultObj) : Prop :=
  results r <> [] /\ Forall (scanned db "$_id" (collection r)) (results r).

Section Run.
Variable db : Store.
Variable write_ok : string -> bool.
Variable mkdir_ok : string -> bool.

Definition loadConfigs (filePath : string) : M value :=
  try_catch
    (content ← readFile filePath;
     lift (JSON_parse content))
    (fun err => throw (ConfigReadError filePath err)).

(** The lookup in [meta.rels] for a collection whose name contains
    [rels]. *)
Definition enrich (collectionName : value) (collectionResults : list entry)
  : M resultObj :=
  let resultObj :=
    {| collection := collectionName; results := collectionResults;
       destCardinality := None; sourceCardinality := None |} in
  rels ← lift (includes_rels collectionName);
  if rels : bool
  then
    log (QueryingMetaRels collectionName);;
    metaRelationDoc ← findOne db "meta.rels" (Obj [("collectionType", collectionName)]);
    if truthy metaRelationDoc
    then
      dest ← lift (get metaRelationDoc "dest");
      destCardinality ← lift (and_get dest "cardinality");
      source ← lift (get metaRelationDoc "source");
      sourceCardinality ← lift (and_get source "cardinality");
      mret {| collection := collectionName; results := collectionResults;
              destCardinality := Some destCardinality;
              sourceCardinality := Some sourceCardinality |}
    else
      log (MetaRelsNotFound collectionName);;
      mret resultObj
  else mret resultObj.

(** The body of the loop over the targets. *)
Definition config_step (config : value) (finalResults : list resultObj)
  : M (list resultObj) :=
  collectionName ← lift (get config "collection");
  fields ← lift (get config "fields");
  if negb (truthy collectionName) || negb (Array_isArray fields)
  then log (BadConfig config);; mret finalResults
  else
    log (ProcessingCollection collectionName);;
    open_collection db collectionName;;
    items ← lift (iterate fields);
    collectionResults ← field_loop db "$_id" collectionName items [];
    if (0 <? length collectionResults)%nat
    then
      resultObj ← enrich collectionName collectionResults;
      mret (finalResults ++ [resultObj])
    else mret finalResults.

(** The loop returns [finalResults] as the iterations left it, with the
    exception in flight when one of them threw: the array is declared
    outside the [try], so it keeps what was pushed before. *)
Fixpoint config_loop (configs : list value) (finalResults : list resultObj)
  : M (list resultObj * option error) :=
  match configs with
  | [] => mret (finalResults, None)
  | config :: rest =>
      r ← attempt (config_step config finalResults);
      match r with
      | inl finalResults' => config_loop rest finalResults'
      | inr error => mret (finalResults, Some error)
      end
  end.

Definition try_block (configs : value) : M (list resultObj * option error) :=
  r ← attempt (connect db;; lift (iterate configs));
  match r with
  | inl items => config_loop items []
  | inr error => mret ([], Some error)
  end.

(** [findDuplicates] from its [try] on, with the handler of the [catch]
    and the value returned: what the function does with a client that is
    made, up to the closing of that client. *)
Definition findDuplicates (configs : value) : M (list resultObj) :=
  '(finalResults, thrown) ← try_block configs;
  match thrown with
  | Some error => log (QueryFailed error)
  | None => mret tt
  end;;
  mret finalResults.

Variable client : Client.

(** The whole call [findDuplicates(configs, { uri, dbName })]: the client
    is made before the [try] and closed in the [finally]; an exception of
    either leaves the function. *)
Definition findDuplicates_call (configs : value) : M (list resultObj) :=
  new_MongoClient client;;
  try_finally (findDuplicates configs) (close client).

Definition configFile : string :=
  path_resolve ["output"; "duplicates_json"; "duplicateKeys.json"].
Definition outputDir : string := path_resolve ["output"; "duplicates_json"].

Definition report_filename (collection : value) : string :=
  path_resolve [outputDir; to_string collection +:+ "_duplicates.json"].

Fixpoint write_loop (duplicatesResults : list resultObj) : M unit :=
  match duplicatesResults with
  | [] => mret tt
  | resultObj :: rest =>
      let filename := report_filename (collection resultObj) in
      try_catch
        (writeFile write_ok filename (JSON_stringify (resultObj_value resultObj));;
         log (ReportWritten (to_string (collection resultObj)) filename))
        (fun err => log (ReportWriteFailed (to_string (collection resultObj)) err));;
      write_loop rest
  end.

Definition main : M unit :=
  Utils.generateConfigs write_ok;;
  configs ← try_catch (loadConfigs configFile)
              (fun err => log (Uncaught err);; process_exit 1);
  duplicatesResults ← findDuplicates_call configs;
  log (Summary (JSON_stringify (Arr (map resultObj_value duplicatesResults))));;
  try_catch (mkdir mkdir_ok outputDir)
    (fun err => log (MkdirError outputDir err);; process_exit 1);;
  write_loop duplicatesResults.
End Run.
End Driver2.

(** ** The specification's reading of the error code *)

Module Spec.

(** The code of an index entry as the specification words it: read from
    the primary location [err.code] and, if it is missing there, from the
    nested envelope location [err.errorResponse.code]. *)
Definition errCode (indexData : value) : result value :=
  err ← get indexData "err";
  code ← get err "code";
  match code with
  | Undefined =>
      errorResponse ← get err "errorResponse";
      match errorResponse with
      | Undefined | Null => Ok Undefined
      | _ => get errorResponse "code"
      end
  | _ => Ok code
  end.

End Spec.

(** ** A store to run the scripts on *)

Module Example.

(** The field a path expression names: [$$ROOT.f] and [$f] name [f]. *)
Definition field_of_expr (expr : string) : string :=
  if String.prefix "$$ROOT." expr then String.substring 7 (String.length expr - 7) expr
  else if String.prefix "$" expr then String.substring 1 (String.length expr - 1) expr
  else expr.

(** Top-level fields only. *)
Definition plain_eval (expr : string) (d : value) : option value :=
  match d with
  | Obj props => assoc (field_of_expr expr) props
  | _ => None
  end.

Definition user (id : Z) (ssn tag : string) : value :=
  Obj [("_id", Num (Int id)); ("ssn", Str ssn); ("tag", Str tag)].

(** Two people share one [ssn], three share another; every [tag] is
    unique. *)
Definition users : list value :=
  [user 1 "078-05-1120" "t1"; user 2 "219-09-9999" "t2"; user 3 "219-09-9999" "t3";
   user 4 "078-05-1120" "t4"; user 5 "219-09-9999" "t5"].

Definition contact (id : Z) (client tag : string) : value :=
  Obj [("_id", Num (Int id)); ("client", Str client); ("tag", Str tag)].

Definition contacts : list value := [contact 10 "c1" "t6"; contact 11 "c1" "t7"].

Definition rels : string := "sharan.rels.clientContact".

Definition collections (name : value) : list value :=
  if value_eqb name (Str "users") then users
  else if value_eqb name (Str rels) then contacts
  else [].

(** The store in which the grouping queries on [failing] throw, and
    [findOne] answers [meta] or throws. *)
Definition store (failing : string) (lookup_ok : bool) (meta : option value) : Store := {|
  connect_ok := true;
  collection_ok := fun _ => true;
  documents := collections;
  eval_path := plain_eval;
  same_key := value_eqb;
  aggregate_ok := fun _ expr => negb (String.eqb expr failing);
  findOne_ok := fun _ _ => lookup_ok;
  findOne_doc := fun _ _ => meta
|}.

(** No query fails, no metadata record exists. *)
Definition healthy : Store := store EmptyString true None.

Definition target (collectionName : string) (fields : list string) : value :=
  Obj [("collection", Str collectionName); ("fields", Arr (map Str fields))].

Definition fresh : state := {| console := []; files := ∅ |}.

End Example.

(** ** Predicates on reports and plans *)

(** The index entry [indexes[indexName]] is read without an exception and
    its code is 11000. *)
Definition duplicate_key_index (indexes : value) (indexName : string) : bool :=
  match get indexes indexName ≫= Utils.errCode with
  | Ok code => is_11000 code
  | _ => false
  end.

(** The field names the index entries of one collection give, in the order
    the inner loop visits them. *)
Definition duplicate_key_fields (indexes : value) : list string :=
  map replace_1_at_end (List.filter (duplicate_key_index indexes) (for_in_keys indexes)).

(** The entry the field loop pushes for a field whose query succeeds: none
    when the pipeline gives no group. *)
Definition found_entry (db : Store) (id_expr : string) (collectionName f : value)
  : option entry :=
  let duplicates :=
    pipeline db ("$" +:+ to_string f) id_expr (documents db collectionName) in
  if (0 <? length duplicates)%nat
  then Some {| field := f; duplicates := duplicates |}
  else None.

(** The entries of a generated target when every query succeeds. *)
Definition target_entries (db : Store) (c : Utils.config) : list entry :=
  omap (found_entry db "$_id" (Str (Utils.collection c))) (map Str (Utils.fields c)).

(** A generated target the second driver reports: its name is not empty
    and one of its fields has duplicates. *)
Definition reported (db : Store) (c : Utils.config) : bool :=
  negb (String.eqb (Utils.collection c) EmptyString)
  && (0 <? length (target_entries db c))%nat.

(** No call the scan of a generated target makes fails. *)
Definition target_healthy (db : Store) (c : Utils.config) : Prop :=
  collection_ok db (Str (Utils.collection c)) = true
  /\ Forall (fun f => aggregate_ok db (Str (Utils.collection c)) ("$" +:+ f) = true)
            (Utils.fields c)
  /\ findOne_ok db "meta.rels" (Obj [("collectionType", Str (Utils.collection c))]) = true.

(** ** The index audit script *)

Module IndexAudit.

(** What the script sees of the store.  The collection infos are taken by
    their names and the [$indexStats] records by their name and their
    [accesses.ops] ([None] when the record has no [accesses] or no [ops]);
    the index descriptions are values. *)
Record Store := {
  connect_ok : bool;
  listCollections_ok : bool;
  collection_names : list string;
  indexes_ok : string -> bool;
  indexes_of : string -> list value;
  indexStats_ok : string -> bool;
  indexStats_of : string -> list (string * option Z)
}.

Inductive line :=
| Processing (collectionName : string)
| IndexesFailed (collectionName : string) (err : error)
| IndexCount (collectionName : string) (indexCount : nat)
| StatsFailed (collectionName : string) (err : error)
| ReportWritten (collectionName filename : string)
| ReportWriteFailed (collectionName : string) (err : error)
| Skipped (collectionName : string) (indexCount : nat)
| QueryFailed (err : error).

Record state := {
  console : list line;
  files : gmap string content
}.

Definition M (A : Type) : Type := state -> result A * state.

#[local] Instance M_ret : MRet M := fun _ a s => (Ok a, s).
#[local] Instance M_bind : MBind M := fun _ _ k m s =>
  match m s with
  | (Ok a, s') => k a s'
  | (Throw e, s') => (Throw e, s')
  | (Exit c, s') => (Exit c, s')
  end.

Definition lift {A} (r : result A) : M A := fun s => (r, s).

Definition try_catch {A} (body : M A) (handler : error -> M A) : M A := fun s =>
  match body s with
  | (Throw e, s') => handler e s'
  | other => other
  end.

Definition try_finally {A} (body : M A) (last : M unit) : M A := fun s =>
  match body s with
  | (Exit c, s') => (Exit c, s')
  | (outcome, s') =>
      match last s' with
      | (Ok _, s'') => (outcome, s'')
      | (Throw e, s'') => (Throw e, s'')
      | (Exit c, s'') => (Exit c, s'')
      end
  end.

Definition log (l : line) : M unit := fun s =>
  (Ok tt, {| console := console s ++ [l]; files := files s |}).

(** [new MongoClient(uri)] *)
Definition new_MongoClient (client : Client) : M unit :=
  if uri_ok client then mret tt else lift (Throw (MongoError "MongoClient")).

(** [await client.close()] *)
Definition close (client : Client) : M unit :=
  if close_ok client then mret tt else lift (Throw (MongoError "close")).

(** The members every object inherits from [Object.prototype]. *)
Definition inherited_members : list string :=
  ["constructor"; "__defineGetter__"; "__defineSetter__"; "hasOwnProperty";
   "__lookupGetter__"; "__lookupSetter__"; "isPrototypeOf"; "propertyIsEnumerable";
   "toString"; "valueOf"; "__proto__"; "toLocaleString"].

(** [usageMap[stat.name] = (stat.accesses && stat.accesses.ops) || 0]:
    assigning a number to [__proto__] stores nothing. *)
Definition usage_set (usageMap : list (string * Z)) (stat : string * option Z)
  : list (string * Z) :=
  if String.eqb (fst stat) "__proto__" then usageMap
  else obj_set (fst stat) (default 0 (snd stat)) usageMap.

Definition build_usageMap (indexUsageStats : list (string * option Z)) : list (string * Z) :=
  fold_left usage_set indexUsageStats [].

(** A usage count: a number, or the member of [Object.prototype] that the
    lookup of an index name found in place of one. *)
Inductive usage :=
| Count (n : Z)
| Inherited (key : string).

(** [usageMap[key] || 0] *)
Definition usage_of (usageMap : list (string * Z)) (key : string) : usage :=
  match assoc key usageMap with
  | Some n => Count n
  | None =>
      if existsb (String.eqb key) inherited_members then Inherited key else Count 0
  end.

(** [{ ...index }]: the own properties of a value, in enumeration order. *)
Definition spread (v : value) : list (string * value) :=
  omap (fun k => match get v k with
                 | Ok x => Some (k, x)
                 | _ => None
                 end) (for_in_keys v).

Record indexWithUsage := { index : value; usageCount : usage }.

(** [index => ({ ...index, usageCount: usageMap[index.name] || 0 })] *)
Definition with_usage (usageMap : list (string * Z)) (index : value)
  : result indexWithUsage :=
  name ← get index "name";
  Ok {| index := index; usageCount := usage_of usageMap (to_string name) |}.

Fixpoint map_with_usage (usageMap : list (string * Z)) (indexes : list value)
  : result (list indexWithUsage) :=
  match indexes with
  | [] => Ok []
  | index :: rest =>
      x ← with_usage usageMap index;
      xs ← map_with_usage usageMap rest;
      Ok (x :: xs)
  end.

(** The comparator [(a, b) => b.usageCount - a.usageCount] puts [a] first
    when the difference is not positive; a difference that is not a number
    counts as zero.  The sort is stable.  With an inherited member among
    the counts the comparator is inconsistent and the order is the
    engine's; the order given here is then one of the possible ones. *)
Definition stays_before (a b : indexWithUsage) : bool :=
  match usageCount a, usageCount b with
  | Count x, Count y => y <=? x
  | _, _ => true
  end.

Fixpoint sort_insert (a : indexWithUsage) (sorted : list indexWithUsage)
  : list indexWithUsage :=
  match sorted with
  | [] => [a]
  | b :: rest => if stays_before a b then a :: sorted else b :: sort_insert a rest
  end.

Definition sort (l : list indexWithUsage) : list indexWithUsage :=
  fold_right sort_insert [] l.

(** The value of [usageCount] in the report: a function leaves no
    property, [Object.prototype] is written as an empty object. *)
Definition usage_value (u : usage) : value :=
  match u with
  | Count n => Num (Int n)
  | Inherited key => if String.eqb key "__proto__" then Obj [] else Undefined
  end.

Definition indexWithUsage_value (x : indexWithUsage) : value :=
  Obj (obj_set "usageCount" (usage_value (usageCount x)) (spread (index x))).

Definition outputDir : string := "output/indexes_json".

Definition report_filename (collectionName : string) : string :=
  outputDir +:+ "/" +:+ collectionName +:+ "_indexes.json".

Definition output (collectionName : string) (indexCount : nat)
           (indexesWithUsage : list indexWithUsage) : value :=
  Obj [("collection", Str collectionName);
       ("indexCount", Num (Int (Z.of_nat indexCount)));
       ("indexes", Arr (map indexWithUsage_value indexesWithUsage))].

Section Run.
Variable db : Store.
Variable write_ok : string -> bool.
Variable mkdir_ok : string -> bool.

Definition connect : M unit :=
  if connect_ok db then mret tt else lift (Throw (MongoError "connect")).

Definition listCollections : M (list string) :=
  if listCollections_ok db then mret (collection_names db)
  else lift (Throw (MongoError "listCollections")).

Definition mkdir (dir : string) : M unit :=
  if mkdir_ok dir then mret tt else lift (Throw (MkdirFailed dir)).

Definition indexes (collectionName : string) : M (list value) :=
  if indexes_ok db collectionName then mret (indexes_of db collectionName)
  else lift (Throw (MongoError "indexes")).

Definition indexStats (collectionName : string) : M (list (string * option Z)) :=
  if indexStats_ok db collectionName then mret (indexStats_of db collectionName)
  else lift (Throw (MongoError "aggregate")).

Definition writeFile (path : string) (c : content) : M unit := fun s =>
  if write_ok path
  then (Ok tt, {| console := console s; files := <[path := c]> (files s) |})
  else (Throw (WriteFailed path), s).

(** The statistics of a collection; a failing query is logged and counts
    as no statistics. *)
Definition usage_stats (collectionName : string) : M (list (string * option Z)) :=
  try_catch (indexStats collectionName)
    (fun err => log (StatsFailed collectionName err);; mret []).

(** Writing one report; a failing write is logged. *)
Definition write_report (collectionName : string) (indexCount : nat)
           (indexesWithUsage : list indexWithUsage) : M unit :=
  let filename := report_filename collectionName in
  try_catch
    (writeFile filename
       (JSON_stringify (output collectionName indexCount indexesWithUsage));;
     log (ReportWritten collectionName filename))
    (fun err => log (ReportWriteFailed collectionName err)).

(** The body of the loop for a collection whose indexes were listed. *)
Definition report_step (collectionName : string) (indexes : list value) : M unit :=
  let indexCount := length indexes in
  if (64 <=? indexCount)%nat
  then
    log (IndexCount collectionName indexCount);;
    indexUsageStats ← usage_stats collectionName;
    let usageMap := build_usageMap indexUsageStats in
    mapped ← lift (map_with_usage usageMap indexes);
    write_report collectionName indexCount (sort mapped)
  else log (Skipped collectionName indexCount).

(** The loop over the collections; a collection whose indexes cannot be
    listed is logged and the loop continues with the next. *)
Fixpoint collection_loop (collections : list string) : M unit :=
  match collections with
  | [] => mret tt
  | collectionName :: rest =>
      log (Processing collectionName);;
      listed ← try_catch (l ← indexes collectionName; mret (Some l))
                 (fun error => log (IndexesFailed collectionName error);; mret None);
      match listed with
      | None => collection_loop rest
      | Some l => report_step collectionName l;; collection_loop rest
      end
  end.

(** The [try] of the script with the handler of its [catch]: what the
    script does with a client that is made, up to the closing of that
    client. *)
Definition main : M unit :=
  try_catch
    (connect;;
     collections ← listCollections;
     mkdir outputDir;;
     collection_loop collections)
    (fun error => log (QueryFailed error)).

Variable client : Client.

(** The whole script: the client is made before the [try] and closed in
    the [finally]; an exception of either is not caught. *)
Definition script : M unit :=
  new_MongoClient client;;
  try_finally main (close client).
End Run.

End IndexAudit.

(** The usage records the report of a collection is built from: none when
    the statistics query fails. *)
Definition audit_stats (db : IndexAudit.Store) (collectionName : string)
  : list (string * option Z) :=
  if IndexAudit.indexStats_ok db collectionName
  then IndexAudit.indexStats_of db collectionName
  else [].

(** A collection with enough indexes for a report: they can be listed and
    are at least 64. *)
Definition audit_large (db : IndexAudit.Store) (c : string) : Prop :=
  IndexAudit.indexes_ok db c = true
  /\ (64 <= length (IndexAudit.indexes_of db c))%nat.

(** A store to run the audit on: [events] cannot list its indexes, [users]
    has 64 of them, [orders] has one; the statistics query fails. *)
Module AuditExample.

Definition index_named (n : string) : value :=
  Obj [("v", Num (Int 2)); ("name", Str n)].

Definition many : list value :=
  map (fun i => index_named (pretty (N.of_nat i))) (seq 0 64).

Definition db : IndexAudit.Store := {|
  IndexAudit.connect_ok := true;
  IndexAudit.listCollections_ok := true;
  IndexAudit.collection_names := ["events"; "users"; "orders"];
  IndexAudit.indexes_ok := fun c => negb (String.eqb c "events");
  IndexAudit.indexes_of := fun c => if String.eqb c "users" then many else [index_named "_id_"];
  IndexAudit.indexStats_ok := fun _ => false;
  IndexAudit.indexStats_of := fun _ => []
|}.

Definition fresh : IndexAudit.state :=
  {| IndexAudit.console := []; IndexAudit.files := ∅ |}.

End AuditExample.

(** * Properties *)

(** ** The monad *)

Lemma bind_run {A B} (m : M A) (k : A -> M B) (s : state) :
  (m ≫= k) s =
  match m s with
  | (Ok a, s') => k a s'
  | (Throw e, s') => (Throw e, s')
  | (Exit c, s') => (Exit c, s')
  end.
Proof. reflexivity. Qed.

Lemma attempt_run {A} (m : M A) (s : state) :
  attempt m s =
  match m s with
  | (Ok a, s') => (Ok (inl a), s')
  | (Throw e, s') => (Ok (inr e), s')
  | (Exit c, s') => (Exit c, s')
  end.
Proof.
  unfold attempt, try_catch. rewrite bind_run.
  destruct (m s) as [[a | e | c] s']; reflexivity.
Qed.

Lemma lift_bind_run {A B} (r : result A) (k : A -> M B) (s : state) :
  (lift r ≫= k) s =
  match r with
  | Ok a => k a s
  | Throw e => (Throw e, s)
  | Exit c => (Exit c, s)
  end.
Proof. rewrite bind_run. unfold lift. destruct r; reflexivity. Qed.

Lemma log_bind_run {B} (l : line) (k : unit -> M B) (s : state) :
  (log l ≫= k) s = k tt {| console := console s ++ [l]; files := files s |}.
Proof. reflexivity. Qed.

(** ** The pipeline *)

Section PipelineFacts.
Variable db : Store.

Lemma group_push_counted key pushed groups :
  Forall counted groups -> Forall counted (group_push db key pushed groups).
Proof.
  induction 1 as [| g rest Hg Hrest IH]; simpl.
  - constructor; [| constructor]. reflexivity.
  - destruct (same_key db (_id g) key).
    + constructor; [| assumption].
      unfold counted in *. simpl. rewrite length_app. simpl. lia.
    + constructor; assumption.
Qed.

Lemma stage_group_counted key_expr id_expr input :
  Forall counted (stage_group db key_expr id_expr input).
Proof.
  unfold stage_group.
  cut (forall acc, Forall counted acc ->
         Forall counted
           (fold_left
              (fun groups d =>
                 group_push db (default Null (eval_path db key_expr d))
                   (Obj match eval_path db id_expr d with
                        | Some id => [("_id", id)]
                        | None => []
                        end) groups) input acc)).
  { intros H. apply H. constructor. }
  induction input as [| d input IH]; intros acc Hacc; simpl.
  - assumption.
  - apply IH. apply group_push_counted. assumption.
Qed.

Lemma sort_insert_Forall (P : group -> Prop) g sorted :
  P g -> Forall P sorted -> Forall P (sort_insert g sorted).
Proof.
  intros Hg. induction 1 as [| h rest Hh Hrest IH]; simpl.
  - repeat constructor. assumption.
  - destruct (count h <=? count g); repeat constructor; assumption.
Qed.

Lemma stage_sort_Forall (P : group -> Prop) groups :
  Forall P groups -> Forall P (stage_sort groups).
Proof.
  induction 1; simpl; [constructor |].
  apply sort_insert_Forall; assumption.
Qed.

Lemma stage_match_Forall (P : group -> Prop) groups :
  Forall P groups -> Forall (fun g => P g /\ 1 < count g) (stage_match groups).
Proof.
  unfold stage_match. induction 1 as [| g rest Hg Hrest IH].
  - constructor.
  - rewrite filter_cons. destruct (decide (1 < count g)).
    + constructor; [split |]; assumption.
    + assumption.
Qed.

Lemma pipeline_groups key_expr id_expr input :
  Forall duplicate_group (pipeline db key_expr id_expr input).
Proof.
  unfold pipeline. apply stage_sort_Forall.
  apply (stage_match_Forall counted). apply stage_group_counted.
Qed.

Lemma sort_insert_descending g sorted :
  descending sorted -> descending (sort_insert g sorted).
Proof.
  unfold descending. induction 1 as [| h rest Hrest IH Hh]; simpl.
  - repeat constructor.
  - destruct (count h <=? count g) eqn:E.
    + apply Z.leb_le in E. constructor.
      * constructor; assumption.
      * constructor; [assumption |].
        eapply Forall_impl; [exact Hh |]. simpl. intros; lia.
    + apply Z.leb_gt in E. constructor; [assumption |].
      apply sort_insert_Forall; [lia | assumption].
Qed.

Lemma pipeline_descending key_expr id_expr input :
  descending (pipeline db key_expr id_expr input).
Proof.
  unfold pipeline, stage_sort.
  induction (stage_match (stage_group db key_expr id_expr input)); simpl.
  - constructor.
  - apply sort_insert_descending. assumption.
Qed.
End PipelineFacts.

(** ** The loop over the fields *)

Section FieldLoopFacts.
Variable db : Store.
Variable id_expr : string.
Variable collectionName : value.

Lemma field_loop_run fields : forall collectionResults s,
  match field_loop db id_expr collectionName fields collectionResults s with
  | (Ok res, s') =>
      (exists new, res = collectionResults ++ new
                   /\ Forall (scanned db id_expr collectionName) new)
      /\ files s' = files s
      /\ Forall (fun f => aggregate_ok db collectionName ("$" +:+ to_string f) = true) fields
  | (Throw e, s') =>
      files s' = files s /\ Exists (fun f => aggregate_ok db collectionName ("$" +:+ to_string f) = false) fields
  | (Exit _, _) => False
  end.
Proof.
  induction fields as [| f rest IH]; intros acc s.
  - simpl. split; [| split]; [| reflexivity | constructor].
    exists []. split; [symmetry; apply app_nil_r | constructor].
  - cbn [field_loop]. rewrite log_bind_run, bind_run.
    unfold aggregate.
    destruct (aggregate_ok db collectionName ("$" +:+ to_string f)) eqn:Hq.
    + cbn [mret M_ret].
      set (duplicates := pipeline db _ _ _).
      destruct (0 <? length duplicates)%nat eqn:Hlen; rewrite log_bind_run.
      * match goal with |- context [field_loop _ _ _ _ ?a ?st] =>
          specialize (IH a st); destruct (field_loop db id_expr collectionName rest a st)
            as [[res | e | c] s'] end.
        -- destruct IH as ((new & -> & Hnew) & Hfiles & Hok).
           split; [| split]; [| exact Hfiles | constructor; assumption].
           eexists. split; [rewrite <- app_assoc; reflexivity |].
           constructor; [| exact Hnew].
           split; [reflexivity |]. simpl.
           apply Nat.ltb_lt in Hlen. destruct duplicates; simpl in *; [lia | discriminate].
        -- destruct IH as [Hfiles Hex]. split; [exact Hfiles | right; exact Hex].
        -- exact IH.
      * match goal with |- context [field_loop _ _ _ _ ?a ?st] =>
          specialize (IH a st); destruct (field_loop db id_expr collectionName rest a st)
            as [[res | e | c] s'] end.
        -- destruct IH as (Hnew & Hfiles & Hok).
           split; [exact Hnew | split]; [exact Hfiles | constructor; assumption].
        -- destruct IH as [Hfiles Hex]. split; [exact Hfiles | right; exact Hex].
        -- exact IH.
    + cbn. split; [reflexivity | left; exact Hq].
Qed.

(** A scan whose queries all succeed returns. *)
Lemma field_loop_returns fields collectionResults s :
  Forall (fun f => aggregate_ok db collectionName ("$" +:+ to_string f) = true) fields ->
  exists res s', field_loop db id_expr collectionName fields collectionResults s
                 = (Ok res, s').
Proof.
  intros Hall. pose proof (field_loop_run fields collectionResults s) as H.
  destruct (field_loop _ _ _ _ _ _) as [[res | e | c] s'].
  - eauto.
  - destruct H as [_ Hex]. apply Exists_exists in Hex as (f & Hin & Hq).
    rewrite Forall_forall in Hall. rewrite (Hall f Hin) in Hq. discriminate.
  - contradiction.
Qed.

End FieldLoopFacts.

(** ** Reads that cannot end the process *)

Lemma get_no_exit v k c : get v k <> Exit c.
Proof.
  destruct v; simpl; try discriminate;
    destruct (String.eqb k "length"); discriminate.
Qed.

Lemma iterate_no_exit v c : iterate v <> Exit c.
Proof. destruct v; discriminate. Qed.

Lemma get_truthy v k : truthy v = true -> exists x, get v k = Ok x.
Proof.
  destruct v; simpl; try discriminate; intros _; eauto;
    destruct (String.eqb k "length"); eauto.
Qed.

(** ** The second driver's scan *)

Section Driver2Facts.
Variable db : Store.

Lemma enrich_run collectionName collectionResults s :
  match Driver2.enrich db collectionName collectionResults s with
  | (Ok r, s') =>
      Driver2.collection r = collectionName
      /\ Driver2.results r = collectionResults
      /\ files s' = files s
  | (Throw _, s') => files s' = files s
  | (Exit _, _) => False
  end.
Proof.
  unfold Driver2.enrich. rewrite lift_bind_run.
  destruct (Driver2.includes_rels collectionName) as [[|] | e | c] eqn:Hrels;
    [| cbn; auto | reflexivity |].
  2: { destruct collectionName; discriminate. }
  rewrite log_bind_run, bind_run. unfold findOne.
  destruct (findOne_ok db _ _); [| reflexivity].
  cbn [mret M_ret].
  set (metaRelationDoc := default Null _).
  destruct (truthy metaRelationDoc) eqn:Hdoc;
    [| rewrite log_bind_run; cbn; auto].
  destruct (get_truthy metaRelationDoc "dest" Hdoc) as [dest Hdest].
  destruct (get_truthy metaRelationDoc "source" Hdoc) as [source Hsource].
  rewrite lift_bind_run, Hdest, lift_bind_run.
  assert (Hand : forall v, exists x, Driver2.and_get v "cardinality" = Ok x).
  { intros v. unfold Driver2.and_get. destruct (truthy v) eqn:E; [| eauto].
    apply get_truthy. exact E. }
  destruct (Hand dest) as [dc ->]. rewrite lift_bind_run, Hsource, lift_bind_run.
  destruct (Hand source) as [sc ->]. cbn. auto.
Qed.

Lemma config_step_run config finalResults s :
  match Driver2.config_step db config finalResults s with
  | (Ok res, s') =>
      (exists new, res = finalResults ++ new
                   /\ Forall (Driver2.scanned_collection db) new)
      /\ files s' = files s
  | (Throw _, s') => files s' = files s
  | (Exit _, _) => False
  end.
Proof.
  assert (Hsame : exists new : list Driver2.resultObj,
             finalResults = finalResults ++ new
             /\ Forall (Driver2.scanned_collection db) new).
  { exists []. split; [symmetry; apply app_nil_r | constructor]. }
  unfold Driver2.config_step. rewrite lift_bind_run.
  destruct (get config "collection") as [collectionName | e | c] eqn:Hc;
    [| reflexivity | exact (get_no_exit _ _ _ Hc)].
  rewrite lift_bind_run.
  destruct (get config "fields") as [fields | e | c] eqn:Hf;
    [| reflexivity | exact (get_no_exit _ _ _ Hf)].
  destruct (negb (truthy collectionName) || negb (Array_isArray fields)).
  { rewrite log_bind_run. cbn. auto. }
  rewrite log_bind_run, bind_run. unfold open_collection.
  destruct (collection_ok db collectionName); [| reflexivity].
  cbn [mret M_ret]. rewrite lift_bind_run.
  destruct (iterate fields) as [items | e | c] eqn:Hi;
    [| reflexivity | exact (iterate_no_exit _ _ Hi)].
  rewrite bind_run.
  match goal with |- context [field_loop db ?i ?n ?f ?a ?st] =>
    pose proof (field_loop_run db i n f a st) as Hloop;
    destruct (field_loop db i n f a st) as [[collectionResults | e | c] s1] end;
    [| exact (proj1 Hloop) | exact Hloop].
  destruct Hloop as ((new & Hnew & Hscanned) & Hfiles & _). simpl in Hnew. subst new.
  destruct (0 <? length collectionResults)%nat eqn:Hlen; [| cbn; auto].
  rewrite bind_run.
  pose proof (enrich_run collectionName collectionResults s1) as Henrich.
  destruct (Driver2.enrich db collectionName collectionResults s1)
    as [[resultObj | e | c] s2]; [| cbn in *; congruence | exact Henrich].
  destruct Henrich as (Hcoll & Hres & Hfiles2). cbn in *.
  split; [| congruence].
  exists [resultObj]. split; [reflexivity |]. constructor; [| constructor].
  unfold Driver2.scanned_collection. rewrite Hcoll, Hres. split; [| exact Hscanned].
  destruct collectionResults; [discriminate Hlen | discriminate].
Qed.

Lemma config_loop_run configs : forall finalResults s,
  match Driver2.config_loop db configs finalResults s with
  | (Ok (res, _), s') =>
      (exists new, res = finalResults ++ new
                   /\ Forall (Driver2.scanned_collection db) new)
      /\ files s' = files s
  | _ => False
  end.
Proof.
  induction configs as [| config rest IH]; intros acc s.
  - cbn. split; [| reflexivity].
    exists []. split; [symmetry; apply app_nil_r | constructor].
  - cbn [Driver2.config_loop]. rewrite bind_run, attempt_run.
    pose proof (config_step_run config acc s) as Hstep.
    destruct (Driver2.config_step db config acc s) as [[acc' | e | c] s1];
      [| | exact Hstep].
    + destruct Hstep as ((new & -> & Hnew) & Hfiles).
      specialize (IH (acc ++ new) s1).
      destruct (Driver2.config_loop db rest (acc ++ new) s1)
        as [[[res thrown] | e | c] s2]; try exact IH.
      destruct IH as ((new' & -> & Hnew') & Hfiles').
      split; [| congruence].
      exists (new ++ new'). split; [symmetry; apply app_assoc |].
      apply Forall_app. split; assumption.
    + cbn. split; [| exact Hstep].
      exists []. split; [symmetry; apply app_nil_r | constructor].
Qed.

(** [findDuplicates] always returns, leaves the files alone, and returns
    only collection results built by the scan. *)
Lemma findDuplicates_run configs s :
  match Driver2.findDuplicates db configs s with
  | (Ok res, s') => Forall (Driver2.scanned_collection db) res /\ files s' = files s
  | _ => False
  end.
Proof.
  unfold Driver2.findDuplicates, Driver2.try_block.
  rewrite !bind_run, attempt_run, bind_run. unfold connect.
  destruct (connect_ok db); [| cbn; split; [constructor | reflexivity]].
  cbn [mret M_ret]. unfold lift.
  destruct (iterate configs) as [items | e | c] eqn:Hi;
    [| cbn; split; [constructor | reflexivity] | exact (iterate_no_exit _ _ Hi)].
  pose proof (config_loop_run items [] s) as Hloop.
  destruct (Driver2.config_loop db items [] s) as [[[res thrown] | e | c] s1];
    try exact Hloop.
  destruct Hloop as ((new & -> & Hnew) & Hfiles). simpl.
  destruct thrown; cbn; split; assumption.
Qed.
End Driver2Facts.

(** ** The first driver's scan *)

Lemma obj_set_Forall {A} (P : string * A -> Prop) k v props :
  P (k, v) -> Forall P props -> Forall P (obj_set k v props).
Proof.
  intros Hkv. induction 1 as [| [k' v'] rest Hhead Hrest IH]; simpl.
  - repeat constructor. assumption.
  - destruct (String.eqb k k'); constructor; assumption.
Qed.

Lemma obj_assign_Forall {A} (P : string * A -> Prop) k v props :
  P (k, v) -> Forall P props -> Forall P (obj_assign k v props).
Proof.
  intros Hkv Hprops. unfold obj_assign.
  destruct (String.eqb k "__proto__"); [exact Hprops | apply obj_set_Forall; assumption].
Qed.

Section Driver1Facts.
Variable db : Store.

Lemma config_step1_run config resultsByCollection s :
  Forall (Driver1.scanned_results db) resultsByCollection ->
  match Driver1.config_step db config resultsByCollection s with
  | (Ok res, s') => Forall (Driver1.scanned_results db) res /\ files s' = files s
  | (Throw _, s') => files s' = files s
  | (Exit _, _) => False
  end.
Proof.
  intros Hacc. unfold Driver1.config_step. rewrite lift_bind_run.
  destruct (get config "collection") as [collectionName | e | c] eqn:Hc;
    [| reflexivity | exact (get_no_exit _ _ _ Hc)].
  rewrite lift_bind_run.
  destruct (get config "fields") as [fields | e | c] eqn:Hf;
    [| reflexivity | exact (get_no_exit _ _ _ Hf)].
  destruct (negb (truthy collectionName) || negb (Array_isArray fields)).
  { rewrite log_bind_run. cbn. auto. }
  rewrite log_bind_run, bind_run. unfold open_collection.
  destruct (collection_ok db collectionName); [| reflexivity].
  cbn [mret M_ret]. rewrite lift_bind_run.
  destruct (iterate fields) as [items | e | c] eqn:Hi;
    [| reflexivity | exact (iterate_no_exit _ _ Hi)].
  rewrite bind_run.
  match goal with |- context [field_loop db ?i ?n ?f ?a ?st] =>
    pose proof (field_loop_run db i n f a st) as Hloop;
    destruct (field_loop db i n f a st) as [[collectionResults | e | c] s1] end;
    [| exact (proj1 Hloop) | exact Hloop].
  destruct Hloop as ((new & Hnew & Hscanned) & Hfiles & _). simpl in Hnew. subst new.
  destruct (0 <? length collectionResults)%nat eqn:Hlen; cbn; [| auto].
  split; [| exact Hfiles].
  apply obj_assign_Forall; [| exact Hacc].
  split; simpl.
  - destruct collectionResults; [discriminate Hlen | discriminate].
  - exists collectionName. split; [reflexivity | exact Hscanned].
Qed.

Lemma config_loop1_run configs : forall resultsByCollection s,
  Forall (Driver1.scanned_results db) resultsByCollection ->
  match Driver1.config_loop db configs resultsByCollection s with
  | (Ok (res, _), s') => Forall (Driver1.scanned_results db) res /\ files s' = files s
  | _ => False
  end.
Proof.
  induction configs as [| config rest IH]; intros acc s Hacc.
  - cbn. auto.
  - cbn [Driver1.config_loop]. rewrite bind_run, attempt_run.
    pose proof (config_step1_run config acc s Hacc) as Hstep.
    destruct (Driver1.config_step db config acc s) as [[acc' | e | c] s1];
      [| | exact Hstep].
    + destruct Hstep as [Hacc' Hfiles].
      specialize (IH acc' s1 Hacc').
      destruct (Driver1.config_loop db rest acc' s1)
        as [[[res thrown] | e | c] s2]; try exact IH.
      destruct IH as [Hres Hfiles']. split; [exact Hres | congruence].
    + cbn. auto.
Qed.

Lemma findDuplicates1_run configs s :
  match Driver1.findDuplicates db configs s with
  | (Ok res, s') => Forall (Driver1.scanned_results db) res /\ files s' = files s
  | _ => False
  end.
Proof.
  unfold Driver1.findDuplicates, Driver1.try_block.
  rewrite !bind_run, attempt_run, bind_run. unfold connect.
  destruct (connect_ok db); [| cbn; split; [constructor | reflexivity]].
  cbn [mret M_ret]. unfold lift.
  destruct (iterate configs) as [items | e | c] eqn:Hi;
    [| cbn; split; [constructor | reflexivity] | exact (iterate_no_exit _ _ Hi)].
  pose proof (config_loop1_run items [] s (Forall_nil_2 _)) as Hloop.
  destruct (Driver1.config_loop db items [] s) as [[[res thrown] | e | c] s1];
    try exact Hloop.
  destruct Hloop as [Hres Hfiles]. simpl.
  destruct thrown; cbn; split; assumption.
Qed.
End Driver1Facts.

(** ** What the scanner returns *)

(** C4.  Both drivers' [findDuplicates] return, and in every duplicate
    group they return the count equals the number of members and is
    greater than one. *)
Theorem returned_groups_counted (db : Store) (configs : value) (s : state) :
  (exists rs, fst (Driver2.findDuplicates db configs s) = Ok rs
     /\ Forall (fun r =>
          Forall (fun e =>
            Forall (fun g => count g = Z.of_nat (length (docs g)) /\ 1 < count g)
                   (duplicates e))
            (Driver2.results r)) rs)
  /\
  (exists rs, fst (Driver1.findDuplicates db configs s) = Ok rs
     /\ Forall (fun kv =>
          Forall (fun e =>
            Forall (fun g => count g = Z.of_nat (length (docs g)) /\ 1 < count g)
                   (duplicates e))
            (snd kv)) rs).
Proof.
  split.
  - pose proof (findDuplicates_run db configs s) as H.
    destruct (Driver2.findDuplicates db configs s) as [[rs | e | c] s']; try contradiction.
    exists rs. split; [reflexivity |].
    destruct H as [H _]. eapply Forall_impl; [exact H |].
    intros r [_ Hr]. eapply Forall_impl; [exact Hr |].
    intros e [He _]. rewrite He. apply pipeline_groups.
  - pose proof (findDuplicates1_run db configs s) as H.
    destruct (Driver1.findDuplicates db configs s) as [[rs | e | c] s']; try contradiction.
    exists rs. split; [reflexivity |].
    destruct H as [H _]. eapply Forall_impl; [exact H |].
    intros kv (_ & name & _ & Hr). eapply Forall_impl; [exact Hr |].
    intros e [He _]. rewrite He. apply pipeline_groups.
Qed.

(** C6.  In every entry the drivers return, the groups are in descending
    order of count; a scan of [ssn] that finds a group of two and then a
    group of three lists the group of three first. *)
Theorem duplicates_sorted_by_count_descending :
  (forall (db : Store) (configs : value) (s : state),
     (exists rs, fst (Driver2.findDuplicates db configs s) = Ok rs
        /\ Forall (fun r => Forall (fun e => descending (duplicates e)) (Driver2.results r)) rs)
     /\
     (exists rs, fst (Driver1.findDuplicates db configs s) = Ok rs
        /\ Forall (fun kv => Forall (fun e => descending (duplicates e)) (snd kv)) rs))
  /\ map count (stage_group Example.healthy "$ssn" "$_id" Example.users) = [2; 3]
  /\ (exists r, fst (Driver2.findDuplicates Example.healthy
                       (Arr [Example.target "users" ["ssn"]]) Example.fresh) = Ok [r]
        /\ map (fun e => (field e, map count (duplicates e))) (Driver2.results r)
           = [(Str "ssn", [3; 2])]).
Proof.
  split; [| split].
  - intros db configs s. split.
    + pose proof (findDuplicates_run db configs s) as H.
      destruct (Driver2.findDuplicates db configs s) as [[rs | e | c] s']; try contradiction.
      exists rs. split; [reflexivity |].
      destruct H as [H _]. eapply Forall_impl; [exact H |].
      intros r [_ Hr]. eapply Forall_impl; [exact Hr |].
      intros e [He _]. rewrite He. apply pipeline_descending.
    + pose proof (findDuplicates1_run db configs s) as H.
      destruct (Driver1.findDuplicates db configs s) as [[rs | e | c] s']; try contradiction.
      exists rs. split; [reflexivity |].
      destruct H as [H _]. eapply Forall_impl; [exact H |].
      intros kv (_ & name & _ & Hr). eapply Forall_impl; [exact Hr |].
      intros e [He _]. rewrite He. apply pipeline_descending.
  - vm_compute. reflexivity.
  - eexists. split; vm_compute; reflexivity.
Qed.

(** C7.  Every entry the drivers return holds at least one group, the
    groups the pipeline gave for its field, and every collection result
    holds at least one entry: a field whose scan gives no group has no
    entry, and a collection without entries has no result. *)
Theorem clean_fields_and_collections_omitted (db : Store) (configs : value) (s : state) :
  (exists rs, fst (Driver2.findDuplicates db configs s) = Ok rs
     /\ Forall (fun r =>
          Driver2.results r <> []
          /\ (forall e, In e (Driver2.results r) ->
                duplicates e <> []
                /\ duplicates e =
                     pipeline db ("$" +:+ to_string (field e)) "$_id"
                       (documents db (Driver2.collection r)))
          /\ (forall f,
                pipeline db ("$" +:+ to_string f) "$_id"
                  (documents db (Driver2.collection r)) = [] ->
                ~ In f (map field (Driver2.results r)))) rs)
  /\
  (exists rs, fst (Driver1.findDuplicates db configs s) = Ok rs
     /\ Forall (fun kv =>
          snd kv <> []
          /\ exists collectionName,
               fst kv = to_string collectionName
               /\ forall e, In e (snd kv) ->
                    duplicates e <> []
                    /\ duplicates e =
                         pipeline db ("$" +:+ to_string (field e)) "$$ROOT._id"
                           (documents db collectionName)) rs).
Proof.
  split.
  - pose proof (findDuplicates_run db configs s) as H.
    destruct (Driver2.findDuplicates db configs s) as [[rs | e | c] s']; try contradiction.
    exists rs. split; [reflexivity |].
    destruct H as [H _]. eapply Forall_impl; [exact H |].
    intros r [Hne Hr]. rewrite Forall_forall in Hr.
    assert (Hall : forall e, In e (Driver2.results r) ->
              duplicates e <> []
              /\ duplicates e =
                   pipeline db ("$" +:+ to_string (field e)) "$_id"
                     (documents db (Driver2.collection r))).
    { intros e He. apply list_elem_of_In in He. destruct (Hr e He). split; assumption. }
    split; [exact Hne | split; [exact Hall |]].
    intros f Hf Hin. apply in_map_iff in Hin as (e & <- & He).
    destruct (Hall e He) as [Hn Heq]. rewrite Heq in Hn. contradiction.
  - pose proof (findDuplicates1_run db configs s) as H.
    destruct (Driver1.findDuplicates db configs s) as [[rs | e | c] s']; try contradiction.
    exists rs. split; [reflexivity |].
    destruct H as [H _]. eapply Forall_impl; [exact H |].
    intros kv (Hne & name & Hname & Hr). split; [exact Hne |].
    exists name. split; [exact Hname |].
    intros e He. rewrite Forall_forall in Hr. apply list_elem_of_In in He.
    destruct (Hr e He). split; assumption.
Qed.

(** ** The generator: field names and error codes *)

Lemma append_1_not_short a p : String a (p +:+ "_1") <> "_1".
Proof.
  intros H. injection H as _ H.
  destruct p as [| b [| c p]]; discriminate.
Qed.

Lemma replace_1_at_end_suffix p : replace_1_at_end (p +:+ "_1") = p.
Proof.
  induction p as [| a p IH].
  - reflexivity.
  - change (String a p +:+ "_1") with (String a (p +:+ "_1")).
    cbn [replace_1_at_end].
    destruct (String.eqb_spec (String a (p +:+ "_1")) "_1") as [E | _].
    + destruct (append_1_not_short _ _ E).
    + rewrite IH. reflexivity.
Qed.

Lemma replace_1_at_end_other s :
  (forall p, s <> p +:+ "_1") -> replace_1_at_end s = s.
Proof.
  induction s as [| a s IH]; intros Hs.
  - reflexivity.
  - cbn [replace_1_at_end].
    destruct (String.eqb_spec (String a s) "_1") as [E | _].
    + destruct (Hs EmptyString E).
    + rewrite IH; [reflexivity |].
      intros p ->. apply (Hs (String a p)). reflexivity.
Qed.

(** C8.  The field name is the index name without one [_1] at its end; an
    index name that does not end in [_1] is the field name.  [email_1]
    gives [email], and the report of scenario A gives the plan with the
    one target [users], [email]. *)
Theorem field_name_strips_suffix_once :
  (forall s p, s = p +:+ "_1" -> replace_1_at_end s = p)
  /\ (forall s, (forall p, s <> p +:+ "_1") -> replace_1_at_end s = s)
  /\ replace_1_at_end "email_1" = "email"
  /\ replace_1_at_end "a_1_1" = "a_1"
  /\ (let report :=
        Obj [("users", Obj [("email_1", Obj [("err", Obj [("code", Num (Int 11000))])])])] in
      Utils.collection_loop report (for_in_keys report) []
      = Ok [{| Utils.collection := "users"; Utils.fields := ["email"] |}]).
Proof.
  split; [| split; [| split; [| split]]].
  - intros s p ->. apply replace_1_at_end_suffix.
  - exact replace_1_at_end_other.
  - reflexivity.
  - reflexivity.
  - vm_compute. reflexivity.
Qed.

Lemma field_name_strips_suffix_once_witness :
  replace_1_at_end "ssn_1" = "ssn" /\ replace_1_at_end "ssn" = "ssn".
Proof.
  split.
  - apply (proj1 field_name_strips_suffix_once "ssn_1" "ssn"). reflexivity.
  - apply (proj1 (proj2 field_name_strips_suffix_once) "ssn").
    intros [| a [| b [| c [| d p]]]]; simpl; discriminate.
Defined.

Lemma is_11000_iff v : is_11000 v = true <-> v = Num (Int 11000).
Proof.
  split.
  - destruct v as [| | | [z |] | | |]; simpl; try discriminate.
    intros H. apply Z.eqb_eq in H. subst. reflexivity.
  - intros ->. reflexivity.
Qed.

Lemma falsy_not_11000 v : truthy v = false -> is_11000 v = false.
Proof.
  destruct v as [| | | [z |] | | |]; simpl; try reflexivity.
  intros H. apply Bool.negb_false_iff, Z.eqb_eq in H. subst. reflexivity.
Qed.

Lemma falsy_has_no_code v : truthy v = false -> get v "code" <> Ok (Num (Int 11000)).
Proof.
  destruct v as [| | | [z |] | s | |]; simpl; discriminate.
Qed.

(** C3, as the code has it.  For an index entry with an [err] record, the
    entry adds its field name exactly when [err.code] is 11000, or
    [err.code] is falsy (absent, [null], [false], [0] or the empty string;
    a parsed report holds no [NaN]) and [err.errorResponse.code] is 11000;
    otherwise the field list is unchanged. *)
Theorem field_contributed_iff_code_11000
  (indexes indexData err primary envelope : value) (indexName : string)
  (fields : list string) :
  get indexes indexName = Ok indexData ->
  get indexData "err" = Ok err ->
  get err "code" = Ok primary ->
  get err "errorResponse" = Ok envelope ->
  let contributes :=
    primary = Num (Int 11000)
    \/ (truthy primary = false /\ get envelope "code" = Ok (Num (Int 11000))) in
  (contributes ->
     Utils.index_step indexes indexName fields
     = Ok (fields ++ [replace_1_at_end indexName]))
  /\ (~ contributes -> Utils.index_step indexes indexName fields = Ok fields).
Proof.
  intros Hdata Herr Hprimary Henvelope contributes.
  assert (Hstep : Utils.index_step indexes indexName fields =
            if is_11000 (if truthy primary then primary
                         else if truthy envelope
                              then match get envelope "code" with
                                   | Ok c => c
                                   | _ => Undefined
                                   end
                              else envelope)
            then Ok (fields ++ [replace_1_at_end indexName]) else Ok fields).
  { unfold Utils.index_step, Utils.errCode.
    rewrite Hdata. cbn [mbind result_mbind result_bind].
    rewrite Herr. cbn [mbind result_mbind result_bind].
    rewrite Hprimary. cbn [mbind result_mbind result_bind].
    destruct (truthy primary); [reflexivity |].
    rewrite Henvelope. cbn [mbind result_mbind result_bind].
    destruct (truthy envelope) eqn:Het; [| reflexivity].
    destruct (get_truthy envelope "code" Het) as [c ->]. reflexivity. }
  rewrite Hstep. clear Hstep. subst contributes. split.
  - intros [-> | [Hfalsy Hcode]].
    + reflexivity.
    + rewrite Hfalsy.
      destruct (truthy envelope) eqn:Het.
      * rewrite Hcode. reflexivity.
      * destruct (falsy_has_no_code envelope Het Hcode).
  - intros Hno.
    destruct (is_11000 _) eqn:Hcode; [| reflexivity].
    exfalso. apply Hno. apply is_11000_iff in Hcode.
    destruct (truthy primary) eqn:Hp; [left; exact Hcode | right].
    split; [reflexivity |].
    destruct (truthy envelope) eqn:Het.
    + destruct (get_truthy envelope "code" Het) as [c Hc].
      rewrite Hc in Hcode. congruence.
    + apply is_11000_iff in Hcode. rewrite (falsy_not_11000 _ Het) in Hcode.
      discriminate.
Qed.

(** Scenario B: the code only in the envelope. *)
Lemma field_contributed_iff_code_11000_witness :
  Utils.index_step
    (Obj [("email_1", Obj [("err", Obj [("errorResponse", Obj [("code", Num (Int 11000))])])])])
    "email_1" [] = Ok ["email"].
Proof.
  refine (proj1 (field_contributed_iff_code_11000
            (Obj [("email_1", Obj [("err", Obj [("errorResponse", Obj [("code", Num (Int 11000))])])])])
            (Obj [("err", Obj [("errorResponse", Obj [("code", Num (Int 11000))])])])
            (Obj [("errorResponse", Obj [("code", Num (Int 11000))])])
            Undefined
            (Obj [("code", Num (Int 11000))])
            "email_1" [] _ _ _ _) _); try reflexivity.
  right. split; reflexivity.
Defined.

(** C3, as the specification words it, fails: with [err.code] present and
    equal to [0], the code read from the primary location is [0], yet the
    entry adds its field because the envelope says 11000. *)
Lemma code_zero_falls_back_to_envelope :
  let indexData :=
    Obj [("err", Obj [("code", Num (Int 0));
                      ("errorResponse", Obj [("code", Num (Int 11000))])])] in
  Spec.errCode indexData = Ok (Num (Int 0))
  /\ Utils.errCode indexData = Ok (Num (Int 11000))
  /\ Utils.index_step (Obj [("x_1", indexData)]) "x_1" [] = Ok ["x"].
Proof. repeat split. Qed.

(** ** The generator and the file system *)

Lemma bind_no_exit {A B} (r : result A) (k : A -> result B) :
  no_exit r -> (forall a, no_exit (k a)) -> no_exit (r ≫= k).
Proof.
  intros Hr Hk c. destruct r as [a | e | c']; cbn.
  - apply Hk.
  - discriminate.
  - destruct (Hr c' eq_refl).
Qed.

Lemma get_no_exit' v k : no_exit (get v k).
Proof. intros c. apply get_no_exit. Qed.

Lemma errCode_no_exit indexData : no_exit (Utils.errCode indexData).
Proof.
  unfold Utils.errCode.
  apply bind_no_exit; [apply get_no_exit' | intros err].
  apply bind_no_exit; [apply get_no_exit' | intros code].
  destruct (truthy code); [discriminate |].
  apply bind_no_exit; [apply get_no_exit' | intros envelope].
  destruct (truthy envelope); [apply get_no_exit' | discriminate].
Qed.

Lemma index_loop_no_exit indexes indexNames : forall fields,
  no_exit (Utils.index_loop indexes indexNames fields).
Proof.
  induction indexNames as [| indexName rest IH]; intros fields; cbn [Utils.index_loop].
  - discriminate.
  - apply bind_no_exit; [| exact IH].
    unfold Utils.index_step.
    apply bind_no_exit; [apply get_no_exit' | intros indexData].
    apply bind_no_exit; [apply errCode_no_exit | intros code].
    destruct (is_11000 code); discriminate.
Qed.

Lemma collection_loop_no_exit data collectionNames : forall newConfigs,
  no_exit (Utils.collection_loop data collectionNames newConfigs).
Proof.
  induction collectionNames as [| collectionName rest IH]; intros newConfigs;
    cbn [Utils.collection_loop].
  - discriminate.
  - apply bind_no_exit; [| exact IH].
    unfold Utils.collection_step.
    apply bind_no_exit; [apply get_no_exit' | intros indexes].
    apply bind_no_exit; [apply index_loop_no_exit | intros fields].
    destruct (0 <? length fields)%nat; discriminate.
Qed.

(** [generateConfigs] always returns, and the only file it can change is
    its output file. *)
Lemma generateConfigs_run write_ok s :
  match Utils.generateConfigs write_ok s with
  | (Ok _, s') => forall p, p <> Utils.outputFile -> files s' !! p = files s !! p
  | _ => False
  end.
Proof.
  unfold Utils.generateConfigs, try_catch. rewrite bind_run. unfold readFile.
  destruct (files s !! Utils.inputFile) as [content |]; [| cbn; auto].
  rewrite lift_bind_run.
  destruct content as [data |]; cbn [JSON_parse]; [| cbn; auto].
  rewrite lift_bind_run.
  destruct (Utils.collection_loop data (for_in_keys data) []) as [newConfigs | e | c] eqn:Hloop;
    [| cbn; auto | destruct (collection_loop_no_exit _ _ _ _ Hloop)].
  rewrite bind_run. unfold writeFile.
  destruct (write_ok Utils.outputFile); cbn; [| auto].
  intros p Hp. apply lookup_insert_ne. congruence.
Qed.

(** Without a readable report the generator logs the failure and returns;
    no file changes. *)
Lemma generateConfigs_without_report write_ok s :
  files s !! Utils.inputFile = None \/ files s !! Utils.inputFile = Some NotJson ->
  exists err,
    Utils.generateConfigs write_ok s
    = (Ok tt, {| console := console s ++ [GenerationFailed err]; files := files s |}).
Proof.
  unfold Utils.generateConfigs, try_catch. rewrite bind_run. unfold readFile.
  intros [-> | ->].
  - exists (ENOENT Utils.inputFile). reflexivity.
  - exists SyntaxError. reflexivity.
Qed.

(** ** The second driver's report loop *)

Section Main2Facts.
Variable db : Store.
Variable write_ok : string -> bool.
Variable mkdir_ok : string -> bool.

Lemma write_loop_run duplicatesResults : forall s,
  match Driver2.write_loop write_ok duplicatesResults s with
  | (Ok _, s') =>
      forall p, (forall c, p <> Driver2.report_filename c) ->
                files s' !! p = files s !! p
  | _ => False
  end.
Proof.
  induction duplicatesResults as [| resultObj rest IH]; intros s.
  - cbn. auto.
  - cbn [Driver2.write_loop]. rewrite bind_run. unfold try_catch.
    rewrite bind_run. unfold writeFile.
    destruct (write_ok _).
    + cbn [log].
      match goal with |- context [Driver2.write_loop _ _ ?st] =>
        specialize (IH st); destruct (Driver2.write_loop write_ok rest st)
          as [[u | e | c] s'] end; try exact IH.
      intros p Hp. rewrite (IH p Hp). cbn. apply lookup_insert_ne.
      intros E. exact (Hp _ (eq_sym E)).
    + cbn [log].
      match goal with |- context [Driver2.write_loop _ _ ?st] =>
        specialize (IH st); destruct (Driver2.write_loop write_ok rest st)
          as [[u | e | c] s'] end; exact IH.
Qed.

End Main2Facts.

(** ** The first driver's loader and report loop *)

Section Main1Facts.
Variable db : Store.
Variable write_ok : string -> bool.
Variable mkdir_ok : string -> bool.

Lemma loadConfigs1_run configFile s :
  Driver1.loadConfigs configFile s =
  match files s !! configFile with
  | Some (Json v) => (Ok v, s)
  | Some NotJson =>
      (Exit 1, {| console := console s ++ [ConfigReadFailed configFile SyntaxError];
                  files := files s |})
  | None =>
      (Exit 1, {| console := console s ++ [ConfigReadFailed configFile (ENOENT configFile)];
                  files := files s |})
  end.
Proof.
  unfold Driver1.loadConfigs, try_catch. rewrite bind_run. unfold readFile.
  destruct (files s !! configFile) as [[v |] |]; reflexivity.
Qed.

Lemma write_loop1_run entries : forall s,
  match Driver1.write_loop write_ok entries s with
  | (Ok _, s') =>
      forall p, (forall name, p <> Driver1.report_filename name) ->
                files s' !! p = files s !! p
  | _ => False
  end.
Proof.
  induction entries as [| [collectionName results] rest IH]; intros s.
  - cbn. auto.
  - cbn [Driver1.write_loop]. rewrite bind_run. unfold try_catch.
    rewrite bind_run. unfold writeFile.
    destruct (write_ok _).
    + cbn [log].
      match goal with |- context [Driver1.write_loop _ _ ?st] =>
        specialize (IH st); destruct (Driver1.write_loop write_ok rest st)
          as [[u | e | c] s'] end; try exact IH.
      intros p Hp. rewrite (IH p Hp). cbn. apply lookup_insert_ne.
      intros E. exact (Hp _ (eq_sym E)).
    + cbn [log].
      match goal with |- context [Driver1.write_loop _ _ ?st] =>
        specialize (IH st); destruct (Driver1.write_loop write_ok rest st)
          as [[u | e | c] s'] end; exact IH.
Qed.

End Main1Facts.

(** ** Where a failure ends the scan *)

Section ScanFailure.
Variable db : Store.





Lemma config_loop_app pre : forall post finalResults s,
  Driver2.config_loop db (pre ++ post) finalResults s =
  match Driver2.config_loop db pre finalResults s with
  | (Ok (finalResults', None), s') => Driver2.config_loop db post finalResults' s'
  | other => other
  end.
Proof.
  induction pre as [| config pre IH]; intros post acc s.
  - reflexivity.
  - cbn [app Driver2.config_loop]. rewrite !bind_run, attempt_run.
    destruct (Driver2.config_step db config acc s) as [[acc' | e | c] s1];
      [apply IH | reflexivity | reflexivity].
Qed.

Lemma config_loop1_app pre : forall post resultsByCollection s,
  Driver1.config_loop db (pre ++ post) resultsByCollection s =
  match Driver1.config_loop db pre resultsByCollection s with
  | (Ok (resultsByCollection', None), s') =>
      Driver1.config_loop db post resultsByCollection' s'
  | other => other
  end.
Proof.
  induction pre as [| config pre IH]; intros post acc s.
  - reflexivity.
  - cbn [app Driver1.config_loop]. rewrite !bind_run, attempt_run.
    destruct (Driver1.config_step db config acc s) as [[acc' | e | c] s1];
      [apply IH | reflexivity | reflexivity].
Qed.


End ScanFailure.




(** ** Malformed targets *)

(** A target that is not [null], and whose collection name is absent or
    falsy or whose fields are not an array, is logged and skipped: the
    loop goes on with the rest. *)
Lemma malformed_target_skipped
  (db : Store) (config collectionName fields : value) (rest : list value)
  (finalResults : list Driver2.resultObj) (resultsByCollection : Driver1.results_object)
  (s : state) :
  get config "collection" = Ok collectionName ->
  get config "fields" = Ok fields ->
  truthy collectionName = false \/ Array_isArray fields = false ->
  let s' := {| console := console s ++ [BadConfig config]; files := files s |} in
  Driver2.config_loop db (config :: rest) finalResults s
  = Driver2.config_loop db rest finalResults s'
  /\ Driver1.config_loop db (config :: rest) resultsByCollection s
     = Driver1.config_loop db rest resultsByCollection s'.
Proof.
  intros Hc Hf Hbad s'.
  assert (Hguard : negb (truthy collectionName) || negb (Array_isArray fields) = true).
  { destruct Hbad as [-> | ->]; [reflexivity | apply orb_true_r]. }
  split.
  - cbn [Driver2.config_loop]. rewrite bind_run, attempt_run.
    unfold Driver2.config_step.
    rewrite lift_bind_run, Hc, lift_bind_run, Hf, Hguard, log_bind_run. reflexivity.
  - cbn [Driver1.config_loop]. rewrite bind_run, attempt_run.
    unfold Driver1.config_step.
    rewrite lift_bind_run, Hc, lift_bind_run, Hf, Hguard, log_bind_run. reflexivity.
Qed.

(** C9 at a [null] target.  Reading [collection] from [null] throws before
    the guard is reached: both drivers log the error and return nothing,
    and [users], which the plan without the [null] reports, is never
    scanned. *)
Theorem null_target_ends_scan :
  let plan := Arr [Null; Example.target "users" ["ssn"]] in
  Driver2.findDuplicates Example.healthy plan Example.fresh
  = (Ok [], {| console := [QueryFailed (TypeError "collection")]; files := ∅ |})
  /\ Driver1.findDuplicates Example.healthy plan Example.fresh
     = (Ok [], {| console := [QueryFailed (TypeError "collection")]; files := ∅ |})
  /\ (map Driver2.collection
        match fst (Driver2.findDuplicates Example.healthy
                     (Arr [Example.target "users" ["ssn"]]) Example.fresh) with
        | Ok rs => rs
        | _ => []
        end = [Str "users"])
  /\ (map Driver2.collection
        match fst (Driver2.findDuplicates Example.healthy
                     (Arr [Obj [("fields", Arr [Str "ssn"])];
                           Example.target "users" ["ssn"]]) Example.fresh) with
        | Ok rs => rs
        | _ => []
        end = [Str "users"]).
Proof. repeat split. Qed.

(** * Further properties *)

(** ** The plan the generator builds *)

Lemma index_loop_fields indexes indexNames : forall fields res,
  Utils.index_loop indexes indexNames fields = Ok res ->
  res = fields ++ map replace_1_at_end
                    (List.filter (duplicate_key_index indexes) indexNames).
Proof.
  induction indexNames as [| indexName rest IH]; intros fields res; cbn [Utils.index_loop].
  - intros [= <-]. simpl. symmetry. apply app_nil_r.
  - unfold Utils.index_step, duplicate_key_index. cbn [List.filter].
    destruct (get indexes indexName) as [indexData | e | c];
      cbn [mbind result_mbind result_bind]; try discriminate.
    destruct (Utils.errCode indexData) as [code | e | c];
      cbn [mbind result_mbind result_bind]; try discriminate.
    destruct (is_11000 code); cbn [mbind result_mbind result_bind]; intros H.
    + rewrite (IH _ _ H). cbn [map]. rewrite <- app_assoc. reflexivity.
    + exact (IH _ _ H).
Qed.

Lemma collection_loop_targets data collectionNames : forall newConfigs res,
  Utils.collection_loop data collectionNames newConfigs = Ok res ->
  res = newConfigs
        ++ omap (fun c =>
                   match get data c with
                   | Ok indexes =>
                       match duplicate_key_fields indexes with
                       | [] => None
                       | fs => Some {| Utils.collection := c; Utils.fields := fs |}
                       end
                   | _ => None
                   end) collectionNames.
Proof.
  induction collectionNames as [| c rest IH]; intros acc res; cbn [Utils.collection_loop].
  - intros [= <-]. simpl. symmetry. apply app_nil_r.
  - unfold Utils.collection_step. cbn [omap list_omap].
    destruct (get data c) as [indexes | e | x];
      cbn [mbind result_mbind result_bind]; try discriminate.
    destruct (Utils.index_loop indexes (for_in_keys indexes) []) as [fs | e | x] eqn:Hfs;
      cbn [mbind result_mbind result_bind]; try discriminate.
    apply index_loop_fields in Hfs. simpl in Hfs. fold (duplicate_key_fields indexes) in Hfs.
    rewrite <- Hfs.
    destruct fs as [| f fs]; cbn [length Nat.ltb Nat.leb mbind result_mbind result_bind];
      intros H.
    + exact (IH _ _ H).
    + rewrite (IH _ _ H). rewrite <- app_assoc. reflexivity.
Qed.

(** X1.  In a plan the generator builds, every target has at least one
    field, and the collection names are keys of the report, in the order
    the report is enumerated. *)
Theorem generated_targets_nonempty_in_report_order (data : value) (newConfigs : list Utils.config) :
  Utils.collection_loop data (for_in_keys data) [] = Ok newConfigs ->
  Forall (fun c => Utils.fields c <> []) newConfigs
  /\ sublist (map Utils.collection newConfigs) (for_in_keys data).
Proof.
  intros H. apply collection_loop_targets in H. simpl in H. subst newConfigs.
  induction (for_in_keys data) as [| c rest [IH1 IH2]]; cbn [omap list_omap].
  - split; constructor.
  - destruct (get data c) as [indexes | e | x]; cbn [map];
      try (split; [exact IH1 | apply sublist_cons; exact IH2]).
    destruct (duplicate_key_fields indexes) as [| f fs] eqn:Hf;
      [split; [exact IH1 | apply sublist_cons; exact IH2] |].
    split.
    + constructor; [simpl; discriminate | exact IH1].
    + cbn [map Utils.collection]. apply sublist_skip. exact IH2.
Qed.

Lemma generated_targets_nonempty_in_report_order_witness :
  let report :=
    Obj [("users", Obj [("email_1", Obj [("err", Obj [("code", Num (Int 11000))])])]);
         ("orders", Obj [("sku_1", Obj [("err", Obj [("code", Num (Int 85))])])]);
         ("7", Obj [("a_1", Obj [("err", Obj [("errorResponse", Obj [("code", Num (Int 11000))])])])])] in
  sublist ["7"; "users"] (for_in_keys report).
Proof.
  intros report.
  exact (proj2 (generated_targets_nonempty_in_report_order report
                  [{| Utils.collection := "7"; Utils.fields := ["a"] |};
                   {| Utils.collection := "users"; Utils.fields := ["email"] |}]
                  eq_refl)).
Defined.

(** X2.  A collection of the report is in the plan exactly when it has an
    index entry with code 11000, and its fields are the names of those
    entries, each without one [_1] at its end, in the order the entries
    are enumerated. *)
Theorem generated_fields_are_duplicate_key_indexes
  (data : value) (newConfigs : list Utils.config) :
  Utils.collection_loop data (for_in_keys data) [] = Ok newConfigs ->
  (forall c, In c newConfigs ->
     In (Utils.collection c) (for_in_keys data)
     /\ exists indexes,
          get data (Utils.collection c) = Ok indexes
          /\ Utils.fields c =
               map replace_1_at_end
                 (List.filter (duplicate_key_index indexes) (for_in_keys indexes)))
  /\ (forall k indexes indexName,
        In k (for_in_keys data) ->
        get data k = Ok indexes ->
        In indexName (for_in_keys indexes) ->
        duplicate_key_index indexes indexName = true ->
        In k (map Utils.collection newConfigs)).
Proof.
  intros H. apply collection_loop_targets in H. simpl in H. subst newConfigs. split.
  - intros c Hc. apply list_elem_of_In, list_elem_of_omap in Hc as (k & Hk & Hsome).
    apply list_elem_of_In in Hk.
    destruct (get data k) as [indexes | e | x] eqn:Hget; try discriminate.
    destruct (duplicate_key_fields indexes) as [| f fs] eqn:Hf; try discriminate.
    injection Hsome as <-. cbn [Utils.collection Utils.fields].
    split; [exact Hk |]. exists indexes. split; [exact Hget | symmetry; exact Hf].
  - intros k indexes indexName Hk Hget Hin Hdup.
    apply in_map_iff.
    assert (Hne : duplicate_key_fields indexes <> []).
    { unfold duplicate_key_fields. intros Hnil. apply map_eq_nil in Hnil.
      assert (Hmem : In indexName (List.filter (duplicate_key_index indexes) (for_in_keys indexes))).
      { apply filter_In. split; assumption. }
      rewrite Hnil in Hmem. destruct Hmem. }
    destruct (duplicate_key_fields indexes) as [| f fs] eqn:Hf; [contradiction |].
    exists {| Utils.collection := k; Utils.fields := f :: fs |}. split; [reflexivity |].
    apply list_elem_of_In, list_elem_of_omap. exists k.
    split; [apply list_elem_of_In; exact Hk |]. rewrite Hget, Hf. reflexivity.
Qed.

Lemma generated_fields_are_duplicate_key_indexes_witness :
  In "users"
     (map Utils.collection [{| Utils.collection := "users"; Utils.fields := ["email"] |}]).
Proof.
  refine (proj2 (generated_fields_are_duplicate_key_indexes
            (Obj [("users", Obj [("email_1", Obj [("err", Obj [("code", Num (Int 11000))])]);
                                 ("age_1", Obj [("err", Obj [("code", Num (Int 85))])])])])
            [{| Utils.collection := "users"; Utils.fields := ["email"] |}] eq_refl)
            "users"
            (Obj [("email_1", Obj [("err", Obj [("code", Num (Int 11000))])]);
                  ("age_1", Obj [("err", Obj [("code", Num (Int 85))])])])
            "email_1" _ _ _ _); vm_compute; auto.
Defined.

(** ** One unreadable entry, and the plan read back *)

Lemma index_loop_throws_at indexes indexName indexNames : forall fields,
  In indexName indexNames ->
  (forall fs, exists e, Utils.index_step indexes indexName fs = Throw e) ->
  exists e, Utils.index_loop indexes indexNames fields = Throw e.
Proof.
  induction indexNames as [| a rest IH]; intros fields Hin Hthrow; [destruct Hin |].
  pose proof (index_loop_no_exit indexes (a :: rest) fields) as Hno.
  cbn [Utils.index_loop] in *.
  destruct Hin as [-> | Hin].
  - destruct (Hthrow fields) as [e ->]. exists e. reflexivity.
  - destruct (Utils.index_step indexes a fields) as [fields' | e | c];
      cbn [mbind result_mbind result_bind] in *.
    + apply IH; assumption.
    + exists e. reflexivity.
    + destruct (Hno c eq_refl).
Qed.

Lemma collection_loop_throws_at data collectionName collectionNames : forall newConfigs,
  In collectionName collectionNames ->
  (forall acc, exists e, Utils.collection_step data collectionName acc = Throw e) ->
  exists e, Utils.collection_loop data collectionNames newConfigs = Throw e.
Proof.
  induction collectionNames as [| a rest IH]; intros acc Hin Hthrow; [destruct Hin |].
  pose proof (collection_loop_no_exit data (a :: rest) acc) as Hno.
  cbn [Utils.collection_loop] in *.
  destruct Hin as [-> | Hin].
  - destruct (Hthrow acc) as [e ->]. exists e. reflexivity.
  - destruct (Utils.collection_step data a acc) as [acc' | e | c];
      cbn [mbind result_mbind result_bind] in *.
    + apply IH; assumption.
    + exists e. reflexivity.
    + destruct (Hno c eq_refl).
Qed.

(** X3.  One index entry that is [null] or has no [err] record makes the
    generator fail as a whole: reading its code throws, the failure is
    logged, and no plan is written, whatever the other entries and
    collections of the report hold. *)
Theorem entry_without_err_discards_plan
  (write_ok : string -> bool) (s : state) (data indexes indexData : value)
  (collectionName indexName : string) :
  files s !! Utils.inputFile = Some (Json data) ->
  In collectionName (for_in_keys data) ->
  get data collectionName = Ok indexes ->
  In indexName (for_in_keys indexes) ->
  get indexes indexName = Ok indexData ->
  indexData = Null \/ get indexData "err" = Ok Undefined \/ get indexData "err" = Ok Null ->
  exists err,
    Utils.generateConfigs write_ok s
    = (Ok tt, {| console := console s ++ [GenerationFailed err]; files := files s |}).
Proof.
  intros Hfile Hc Hindexes Hn Hentry Hbad.
  assert (Hstep : forall fs, exists e, Utils.index_step indexes indexName fs = Throw e).
  { intros fs. unfold Utils.index_step, Utils.errCode. rewrite Hentry.
    cbn [mbind result_mbind result_bind].
    destruct Hbad as [-> | [-> | ->]]; eexists; reflexivity. }
  assert (Hcoll : forall acc, exists e, Utils.collection_step data collectionName acc = Throw e).
  { intros acc. unfold Utils.collection_step. rewrite Hindexes.
    cbn [mbind result_mbind result_bind].
    destruct (index_loop_throws_at indexes indexName _ [] Hn Hstep) as [e ->].
    exists e. reflexivity. }
  destruct (collection_loop_throws_at data collectionName _ [] Hc Hcoll) as [e He].
  exists e. unfold Utils.generateConfigs, try_catch. rewrite bind_run. unfold readFile.
  rewrite Hfile. cbn [JSON_parse]. rewrite lift_bind_run, lift_bind_run, He. reflexivity.
Qed.

Lemma entry_without_err_discards_plan_witness :
  let data :=
    Obj [("users", Obj [("email_1", Obj [("err", Obj [("code", Num (Int 11000))])])]);
         ("orders", Obj [("sku_1", Obj [("ok", Num (Int 1))])])] in
  let s := {| console := []; files := {[ Utils.inputFile := Json data ]} |} in
  exists err,
    Utils.generateConfigs (fun _ => true) s
    = (Ok tt, {| console := console s ++ [GenerationFailed err]; files := files s |}).
Proof.
  intros data s.
  refine (entry_without_err_discards_plan (fun _ => true) s data
            (Obj [("sku_1", Obj [("ok", Num (Int 1))])]) (Obj [("ok", Num (Int 1))])
            "orders" "sku_1" _ _ _ _ _ _);
    try (vm_compute; reflexivity); try (vm_compute; auto).
Defined.

Lemma stringified_strings (l : list string) : stringified (Arr (map Str l)) = Arr (map Str l).
Proof.
  cbn [stringified]. f_equal. induction l as [| x l IH]; simpl; [reflexivity |].
  rewrite IH. reflexivity.
Qed.

Lemma stringified_plan (newConfigs : list Utils.config) :
  stringified (Arr (map Utils.config_value newConfigs)) = Arr (map Utils.config_value newConfigs).
Proof.
  cbn [stringified]. f_equal. induction newConfigs as [| c l IH]; [reflexivity |].
  cbn [map]. unfold Utils.config_value at 1 3.
  rewrite IH. f_equal. unfold Utils.config_value.
  change (stringified (Obj [("collection", Str (Utils.collection c));
                            ("fields", Arr (map Str (Utils.fields c)))]))
    with (Obj [("collection", Str (Utils.collection c));
               ("fields", stringified (Arr (map Str (Utils.fields c))))]).
  rewrite stringified_strings. reflexivity.
Qed.

(** X4.  When the generator succeeds, the plan the second driver loads is
    the plan the generator built: writing it with [JSON.stringify] and
    reading it back with [JSON.parse] loses nothing, and the generator's
    only console line reports the output file. *)
Theorem generated_plan_loads_back
  (write_ok : string -> bool) (s : state) (data : value) (newConfigs : list Utils.config) :
  files s !! Utils.inputFile = Some (Json data) ->
  Utils.collection_loop data (for_in_keys data) [] = Ok newConfigs ->
  write_ok Utils.outputFile = true ->
  let s' := snd (Utils.generateConfigs write_ok s) in
  Driver2.loadConfigs Driver2.configFile s' = (Ok (Arr (map Utils.config_value newConfigs)), s')
  /\ console s' = console s ++ [GeneratedConfig Utils.outputFile].
Proof.
  intros Hfile Hloop Hwrite.
  assert (Hgen : Utils.generateConfigs write_ok s
                 = (Ok tt, {| console := console s ++ [GeneratedConfig Utils.outputFile];
                              files := <[Utils.outputFile :=
                                           JSON_stringify (Arr (map Utils.config_value newConfigs))]>
                                         (files s) |})).
  { unfold Utils.generateConfigs, try_catch. rewrite bind_run. unfold readFile.
    rewrite Hfile. cbn [JSON_parse]. rewrite lift_bind_run, lift_bind_run, Hloop.
    rewrite bind_run. unfold writeFile. rewrite Hwrite. reflexivity. }
  rewrite Hgen. cbn [snd]. split; [| reflexivity].
  unfold Driver2.loadConfigs, try_catch. rewrite bind_run. unfold readFile. cbn [files].
  change Driver2.configFile with Utils.outputFile. rewrite lookup_insert_eq.
  unfold JSON_stringify. rewrite stringified_plan. reflexivity.
Qed.

Lemma generated_plan_loads_back_witness :
  let data := Obj [("users", Obj [("email_1", Obj [("err", Obj [("code", Num (Int 11000))])])])] in
  let s := {| console := []; files := {[ Utils.inputFile := Json data ]} |} in
  fst (Driver2.loadConfigs Driver2.configFile (snd (Utils.generateConfigs (fun _ => true) s)))
  = Ok (Arr [Example.target "users" ["email"]]).
Proof.
  intros data s.
  pose proof (generated_plan_loads_back (fun _ => true) s data
                [{| Utils.collection := "users"; Utils.fields := ["email"] |}]) as H.
  rewrite (proj1 (H ltac:(vm_compute; reflexivity) ltac:(vm_compute; reflexivity) eq_refl)).
  reflexivity.
Defined.

(** ** What the pipeline keeps *)

Section PipelineConservation.
Variable db : Store.

Lemma group_push_members key pushed groups :
  concat (map docs (group_push db key pushed groups))
  ≡ₚ concat (map docs groups) ++ [pushed].
Proof.
  induction groups as [| g rest IH]; simpl.
  - reflexivity.
  - destruct (same_key db (_id g) key); simpl.
    + rewrite <- !app_assoc. apply Permutation_app_head. apply Permutation_app_comm.
    + rewrite IH. rewrite app_assoc. reflexivity.
Qed.

Lemma group_push_total key pushed groups :
  foldr Z.add 0 (map count (group_push db key pushed groups))
  = foldr Z.add 0 (map count groups) + 1.
Proof.
  induction groups as [| g rest IH]; simpl.
  - reflexivity.
  - destruct (same_key db (_id g) key); simpl; lia.
Qed.

Lemma sort_insert_perm g sorted : sort_insert g sorted ≡ₚ g :: sorted.
Proof.
  induction sorted as [| h rest IH]; simpl.
  - reflexivity.
  - destruct (count h <=? count g); [reflexivity |].
    rewrite IH. apply Permutation_swap.
Qed.

Lemma stage_sort_perm groups : stage_sort groups ≡ₚ groups.
Proof.
  induction groups as [| g rest IH]; simpl.
  - reflexivity.
  - rewrite sort_insert_perm, IH. reflexivity.
Qed.
End PipelineConservation.

(** X5.  [$group] loses no document and counts none twice: the members of
    all groups together are the pushed identifiers of the input documents,
    each once, and the counts add up to the number of documents. *)
Theorem grouping_keeps_every_document
  (db : Store) (key_expr id_expr : string) (input : list value) :
  concat (map docs (stage_group db key_expr id_expr input))
  ≡ₚ map (fun d => Obj match eval_path db id_expr d with
                       | Some id => [("_id", id)]
                       | None => []
                       end) input
  /\ foldr Z.add 0 (map count (stage_group db key_expr id_expr input))
     = Z.of_nat (length input).
Proof.
  unfold stage_group.
  set (pushed := fun d => Obj match eval_path db id_expr d with
                              | Some id => [("_id", id)]
                              | None => []
                              end).
  set (step := fun groups d =>
                 group_push db (default Null (eval_path db key_expr d)) (pushed d) groups).
  change (concat (map docs (fold_left step input [])) ≡ₚ map pushed input
          /\ foldr Z.add 0 (map count (fold_left step input [])) = Z.of_nat (length input)).
  cut (forall acc,
         concat (map docs (fold_left step input acc))
         ≡ₚ concat (map docs acc) ++ map pushed input
         /\ foldr Z.add 0 (map count (fold_left step input acc))
            = foldr Z.add 0 (map count acc) + Z.of_nat (length input)).
  { intros H. destruct (H []) as [H1 H2]. split; [exact H1 | rewrite H2; reflexivity]. }
  induction input as [| d input IH]; intros acc.
  - simpl. split; [rewrite app_nil_r; reflexivity | lia].
  - cbn [fold_left map length]. destruct (IH (step acc d)) as [H1 H2]. split.
    + rewrite H1. unfold step at 1. rewrite group_push_members.
      rewrite <- app_assoc. reflexivity.
    + rewrite H2. unfold step at 1. rewrite group_push_total. lia.
Qed.

(** X6.  The groups a field scan returns are, in some order, exactly the
    groups of the collection that count more than one member: [$match]
    keeps those and no other, and [$sort] neither drops nor repeats a
    group. *)
Theorem pipeline_returns_exactly_the_repeated_groups
  (db : Store) (key_expr id_expr : string) (input : list value) :
  pipeline db key_expr id_expr input
  ≡ₚ filter (fun g => 1 < count g) (stage_group db key_expr id_expr input)
  /\ forall g, g ∈ pipeline db key_expr id_expr input
               <-> g ∈ stage_group db key_expr id_expr input /\ 1 < count g.
Proof.
  assert (Hperm : pipeline db key_expr id_expr input
                  ≡ₚ filter (fun g => 1 < count g) (stage_group db key_expr id_expr input)).
  { unfold pipeline, stage_match. apply stage_sort_perm. }
  split; [exact Hperm |].
  intros g. rewrite Hperm, list_elem_of_filter. tauto.
Qed.

(** ** The result of a scan does not depend on the console or the files *)

Section StateIndependence.
Variable db : Store.

Lemma field_loop_fst id_expr collectionName fields : forall collectionResults s s',
  fst (field_loop db id_expr collectionName fields collectionResults s)
  = fst (field_loop db id_expr collectionName fields collectionResults s').
Proof.
  induction fields as [| f rest IH]; intros acc s s'; [reflexivity |].
  cbn [field_loop]. rewrite !log_bind_run, !bind_run. unfold aggregate.
  destruct (aggregate_ok db collectionName ("$" +:+ to_string f)); [| reflexivity].
  cbn [mret M_ret].
  destruct (0 <? length (pipeline db ("$" +:+ to_string f) id_expr
                           (documents db collectionName)))%nat;
    rewrite !log_bind_run; apply IH.
Qed.

Lemma enrich_fst collectionName collectionResults s s' :
  fst (Driver2.enrich db collectionName collectionResults s)
  = fst (Driver2.enrich db collectionName collectionResults s').
Proof.
  unfold Driver2.enrich. rewrite !lift_bind_run.
  destruct (Driver2.includes_rels collectionName) as [[|] | e | c]; try reflexivity.
  rewrite !log_bind_run, !bind_run. unfold findOne.
  destruct (findOne_ok db _ _); [| reflexivity].
  cbn [mret M_ret].
  destruct (truthy _); [| rewrite !log_bind_run; reflexivity].
  rewrite !lift_bind_run. destruct (get _ "dest") as [dest | e | c]; try reflexivity.
  rewrite !lift_bind_run. destruct (Driver2.and_get dest _) as [dc | e | c]; try reflexivity.
  rewrite !lift_bind_run. destruct (get _ "source") as [source | e | c]; try reflexivity.
  rewrite !lift_bind_run. destruct (Driver2.and_get source _) as [sc | e | c]; reflexivity.
Qed.

Lemma config_step_fst config finalResults s s' :
  fst (Driver2.config_step db config finalResults s)
  = fst (Driver2.config_step db config finalResults s').
Proof.
  unfold Driver2.config_step. rewrite !lift_bind_run.
  destruct (get config "collection") as [collectionName | e | c]; try reflexivity.
  rewrite !lift_bind_run.
  destruct (get config "fields") as [fields | e | c]; try reflexivity.
  destruct (negb (truthy collectionName) || negb (Array_isArray fields)).
  { rewrite !log_bind_run. reflexivity. }
  rewrite !log_bind_run, !bind_run. unfold open_collection.
  destruct (collection_ok db collectionName); [| reflexivity].
  cbn [mret M_ret]. rewrite !lift_bind_run.
  destruct (iterate fields) as [items | e | c]; try reflexivity.
  rewrite !bind_run.
  match goal with
  | |- context [field_loop db ?i ?n ?f ?a ?s1] =>
      match goal with
      | |- fst _ = fst (match field_loop db i n f a ?s2 with _ => _ end) =>
          pose proof (field_loop_fst i n f a s1 s2) as Hloop;
          destruct (field_loop db i n f a s1) as [r1 t1];
          destruct (field_loop db i n f a s2) as [r2 t2]
      end
  end.
  simpl in Hloop. subst r2. destruct r1 as [collectionResults | e | c]; try reflexivity.
  destruct (0 <? length collectionResults)%nat; [| reflexivity].
  rewrite !bind_run.
  pose proof (enrich_fst collectionName collectionResults t1 t2) as He.
  destruct (Driver2.enrich db collectionName collectionResults t1) as [r1 u1].
  destruct (Driver2.enrich db collectionName collectionResults t2) as [r2 u2].
  simpl in He. subst r2. destruct r1; reflexivity.
Qed.

Lemma config_loop_fst configs : forall finalResults s s',
  fst (Driver2.config_loop db configs finalResults s)
  = fst (Driver2.config_loop db configs finalResults s').
Proof.
  induction configs as [| config rest IH]; intros acc s s'; [reflexivity |].
  cbn [Driver2.config_loop]. rewrite !bind_run, !attempt_run.
  pose proof (config_step_fst config acc s s') as Hstep.
  destruct (Driver2.config_step db config acc s) as [r1 t1].
  destruct (Driver2.config_step db config acc s') as [r2 t2].
  simpl in Hstep. subst r2. destruct r1 as [acc' | e | c]; try reflexivity.
  apply IH.
Qed.

Lemma config_step1_fst config resultsByCollection s s' :
  fst (Driver1.config_step db config resultsByCollection s)
  = fst (Driver1.config_step db config resultsByCollection s').
Proof.
  unfold Driver1.config_step. rewrite !lift_bind_run.
  destruct (get config "collection") as [collectionName | e | c]; try reflexivity.
  rewrite !lift_bind_run.
  destruct (get config "fields") as [fields | e | c]; try reflexivity.
  destruct (negb (truthy collectionName) || negb (Array_isArray fields)).
  { rewrite !log_bind_run. reflexivity. }
  rewrite !log_bind_run, !bind_run. unfold open_collection.
  destruct (collection_ok db collectionName); [| reflexivity].
  cbn [mret M_ret]. rewrite !lift_bind_run.
  destruct (iterate fields) as [items | e | c]; try reflexivity.
  rewrite !bind_run.
  match goal with
  | |- context [field_loop db ?i ?n ?f ?a ?s1] =>
      match goal with
      | |- fst _ = fst (match field_loop db i n f a ?s2 with _ => _ end) =>
          pose proof (field_loop_fst i n f a s1 s2) as Hloop;
          destruct (field_loop db i n f a s1) as [r1 t1];
          destruct (field_loop db i n f a s2) as [r2 t2]
      end
  end.
  simpl in Hloop. subst r2. destruct r1 as [collectionResults | e | c]; try reflexivity.
  destruct (0 <? length collectionResults)%nat; reflexivity.
Qed.

Lemma config_loop1_fst configs : forall resultsByCollection s s',
  fst (Driver1.config_loop db configs resultsByCollection s)
  = fst (Driver1.config_loop db configs resultsByCollection s').
Proof.
  induction configs as [| config rest IH]; intros acc s s'; [reflexivity |].
  cbn [Driver1.config_loop]. rewrite !bind_run, !attempt_run.
  pose proof (config_step1_fst config acc s s') as Hstep.
  destruct (Driver1.config_step db config acc s) as [r1 t1].
  destruct (Driver1.config_step db config acc s') as [r2 t2].
  simpl in Hstep. subst r2. destruct r1 as [acc' | e | c]; try reflexivity.
  apply IH.
Qed.

(** [findDuplicates] returns the results the loop leaves. *)
Lemma findDuplicates_fst items s :
  connect_ok db = true ->
  fst (Driver2.findDuplicates db (Arr items) s)
  = match fst (Driver2.config_loop db items [] s) with
    | Ok (finalResults, _) => Ok finalResults
    | Throw e => Throw e
    | Exit c => Exit c
    end.
Proof.
  intros Hconnect. unfold Driver2.findDuplicates, Driver2.try_block.
  rewrite !bind_run, attempt_run, bind_run. unfold connect. rewrite Hconnect.
  cbn [mret M_ret lift iterate].
  destruct (Driver2.config_loop db items [] s) as [[[rs [e |]] | e | c] s1]; reflexivity.
Qed.

Lemma findDuplicates1_fst items s :
  connect_ok db = true ->
  fst (Driver1.findDuplicates db (Arr items) s)
  = match fst (Driver1.config_loop db items [] s) with
    | Ok (resultsByCollection, _) => Ok resultsByCollection
    | Throw e => Throw e
    | Exit c => Exit c
    end.
Proof.
  intros Hconnect. unfold Driver1.findDuplicates, Driver1.try_block.
  rewrite !bind_run, attempt_run, bind_run. unfold connect. rewrite Hconnect.
  cbn [mret M_ret lift iterate].
  destruct (Driver1.config_loop db items [] s) as [[[rs [e |]] | e | c] s1]; reflexivity.
Qed.
End StateIndependence.

(** X7.  A target that is not [null] and has no truthy collection name, or
    whose fields are not an array, changes nothing in what either driver
    returns: the result is that of the plan without the target. *)
Theorem malformed_target_changes_no_result
  (db : Store) (pre post : list value) (config collectionName fields : value) (s : state) :
  get config "collection" = Ok collectionName ->
  get config "fields" = Ok fields ->
  truthy collectionName = false \/ Array_isArray fields = false ->
  fst (Driver2.findDuplicates db (Arr (pre ++ config :: post)) s)
  = fst (Driver2.findDuplicates db (Arr (pre ++ post)) s)
  /\ fst (Driver1.findDuplicates db (Arr (pre ++ config :: post)) s)
     = fst (Driver1.findDuplicates db (Arr (pre ++ post)) s).
Proof.
  intros Hc Hf Hbad.
  destruct (connect_ok db) eqn:Hconnect.
  - split.
    + rewrite !findDuplicates_fst by assumption. rewrite !config_loop_app.
      destruct (Driver2.config_loop db pre [] s) as [[[acc [e |]] | e | c] s1];
        try reflexivity.
      rewrite (proj1 (malformed_target_skipped db config collectionName fields post
                        acc [] s1 Hc Hf Hbad)).
      rewrite (config_loop_fst db post acc _ s1). reflexivity.
    + rewrite !findDuplicates1_fst by assumption. rewrite !config_loop1_app.
      destruct (Driver1.config_loop db pre [] s) as [[[acc [e |]] | e | c] s1];
        try reflexivity.
      rewrite (proj2 (malformed_target_skipped db config collectionName fields post
                        [] acc s1 Hc Hf Hbad)).
      rewrite (config_loop1_fst db post acc _ s1). reflexivity.
  - unfold Driver2.findDuplicates, Driver2.try_block,
      Driver1.findDuplicates, Driver1.try_block.
    rewrite !bind_run, !attempt_run, !bind_run. unfold connect. rewrite Hconnect.
    split; reflexivity.
Qed.

Lemma malformed_target_changes_no_result_witness :
  fst (Driver2.findDuplicates Example.healthy
         (Arr ([Example.target "users" ["ssn"]]
               ++ Obj [("collection", Str "users"); ("fields", Str "ssn")]
               :: [Example.target Example.rels ["client"]])) Example.fresh)
  = fst (Driver2.findDuplicates Example.healthy
           (Arr ([Example.target "users" ["ssn"]]
                 ++ [Example.target Example.rels ["client"]])) Example.fresh).
Proof.
  refine (proj1 (malformed_target_changes_no_result Example.healthy
            [Example.target "users" ["ssn"]] [Example.target Example.rels ["client"]]
            (Obj [("collection", Str "users"); ("fields", Str "ssn")])
            (Str "users") (Str "ssn") Example.fresh _ _ _)); try reflexivity.
  right. reflexivity.
Defined.

(** ** Scans that cannot start *)



(** ** A scan in which no call fails *)

Section HealthyScan.
Variable db : Store.

Lemma field_loop_healthy id_expr collectionName fields : forall collectionResults s,
  Forall (fun f => aggregate_ok db collectionName ("$" +:+ to_string f) = true) fields ->
  exists s',
    field_loop db id_expr collectionName fields collectionResults s
    = (Ok (collectionResults ++ omap (found_entry db id_expr collectionName) fields), s').
Proof.
  induction fields as [| f rest IH]; intros acc s Hok.
  - exists s. simpl. rewrite app_nil_r. reflexivity.
  - apply Forall_cons in Hok as [Hq Hok].
    cbn [field_loop omap list_omap]. rewrite log_bind_run, bind_run. unfold aggregate.
    rewrite Hq. cbn [mret M_ret]. unfold found_entry at 1.
    destruct (0 <? length (pipeline db ("$" +:+ to_string f) id_expr
                             (documents db collectionName)))%nat;
      rewrite log_bind_run.
    + match goal with |- context [field_loop _ _ _ _ ?a ?st] =>
        destruct (IH a st Hok) as [s' ->] end.
      exists s'. rewrite <- app_assoc. reflexivity.
    + match goal with |- context [field_loop _ _ _ _ ?a ?st] =>
        destruct (IH a st Hok) as [s' ->] end.
      exists s'. reflexivity.
Qed.

Lemma enrich_healthy (name : string) collectionResults s :
  findOne_ok db "meta.rels" (Obj [("collectionType", Str name)]) = true ->
  exists r s',
    Driver2.enrich db (Str name) collectionResults s = (Ok r, s')
    /\ Driver2.collection r = Str name
    /\ Driver2.results r = collectionResults.
Proof.
  intros Hlookup.
  pose proof (enrich_run db (Str name) collectionResults s) as Hrun.
  destruct (Driver2.enrich db (Str name) collectionResults s) as [[r | e | c] s'] eqn:He.
  - destruct Hrun as (H1 & H2 & _). eauto.
  - exfalso. revert He. unfold Driver2.enrich. rewrite lift_bind_run.
    cbn [Driver2.includes_rels]. destruct (includes name "rels"); [| discriminate].
    rewrite log_bind_run, bind_run. unfold findOne. rewrite Hlookup. cbn [mret M_ret].
    set (doc := default Null _).
    destruct (truthy doc) eqn:Hdoc; [| rewrite log_bind_run; discriminate].
    destruct (get_truthy doc "dest" Hdoc) as [dest Hdest].
    destruct (get_truthy doc "source" Hdoc) as [source Hsource].
    assert (Hand : forall v, exists x, Driver2.and_get v "cardinality" = Ok x).
    { intros v. unfold Driver2.and_get. destruct (truthy v) eqn:E; [| eauto].
      apply get_truthy. exact E. }
    rewrite lift_bind_run, Hdest, lift_bind_run.
    destruct (Hand dest) as [dc ->]. rewrite lift_bind_run, Hsource, lift_bind_run.
    destruct (Hand source) as [sc ->]. discriminate.
  - contradiction.
Qed.

Lemma config_step_healthy (c : Utils.config) finalResults s :
  target_healthy db c ->
  exists new s',
    Driver2.config_step db (Utils.config_value c) finalResults s
    = (Ok (finalResults ++ new), s')
    /\ if reported db c
       then exists r, new = [r]
                      /\ Driver2.collection r = Str (Utils.collection c)
                      /\ Driver2.results r = target_entries db c
       else new = [].
Proof.
  intros (Hopen & Hok & Hlookup). unfold Driver2.config_step, reported.
  change (get (Utils.config_value c) "collection") with (Ok (Str (Utils.collection c))).
  change (get (Utils.config_value c) "fields") with (Ok (Arr (map Str (Utils.fields c)))).
  rewrite !lift_bind_run. cbn [truthy Array_isArray negb orb].
  destruct (String.eqb (Utils.collection c) EmptyString) eqn:Hname; cbn [negb orb andb].
  { rewrite log_bind_run. eexists [], _. split; [rewrite app_nil_r; reflexivity | reflexivity]. }
  rewrite log_bind_run, bind_run. unfold open_collection. rewrite Hopen.
  cbn [mret M_ret]. rewrite lift_bind_run. cbn [iterate]. rewrite bind_run.
  assert (Hok' : Forall (fun f => aggregate_ok db (Str (Utils.collection c))
                                    ("$" +:+ to_string f) = true)
                        (map Str (Utils.fields c))).
  { apply Forall_fmap. eapply Forall_impl; [exact Hok |]. intros f Hf. exact Hf. }
  match goal with |- context [field_loop db ?i ?n ?f ?a ?st] =>
    destruct (field_loop_healthy i n f a st Hok') as [s1 ->] end.
  cbn [app]. fold (target_entries db c).
  destruct (0 <? length (target_entries db c))%nat eqn:Hlen.
  - rewrite bind_run.
    destruct (enrich_healthy (Utils.collection c) (target_entries db c) s1 Hlookup)
      as (r & s2 & -> & Hcoll & Hres).
    exists [r], s2. split; [reflexivity |]. exists r. auto.
  - exists [], s1. split; [rewrite app_nil_r; reflexivity | reflexivity].
Qed.

Lemma config_loop_healthy (cfgs : list Utils.config) : forall finalResults s,
  Forall (target_healthy db) cfgs ->
  exists new s',
    Driver2.config_loop db (map Utils.config_value cfgs) finalResults s
    = (Ok (finalResults ++ new, None), s')
    /\ Forall2 (fun r c => Driver2.collection r = Str (Utils.collection c)
                           /\ Driver2.results r = target_entries db c)
               new (List.filter (reported db) cfgs).
Proof.
  induction cfgs as [| c rest IH]; intros acc s Hall.
  - exists [], s. split; [rewrite app_nil_r; reflexivity | constructor].
  - apply Forall_cons in Hall as [Hc Hall].
    cbn [map Driver2.config_loop List.filter]. rewrite bind_run, attempt_run.
    destruct (config_step_healthy c acc s Hc) as (new & s1 & -> & Hnew).
    destruct (IH (acc ++ new) s1 Hall) as (new' & s2 & -> & Hrest).
    exists (new ++ new'), s2. split; [rewrite app_assoc; reflexivity |].
    destruct (reported db c).
    + destruct Hnew as (r & -> & Hcoll & Hres). constructor; [split; assumption | exact Hrest].
    + subst new. exact Hrest.
Qed.
End HealthyScan.

(** X9.  On a plan written by the generator, with a store in which no call
    of the scan fails, the second driver reports, in plan order, exactly
    the targets with a non-empty name that have a field with duplicates;
    each result carries, in field order, one entry per field with
    duplicates, holding the groups of that field. *)
Theorem healthy_scan_reports_targets_with_duplicates
  (db : Store) (newConfigs : list Utils.config) (s : state) :
  connect_ok db = true ->
  Forall (target_healthy db) newConfigs ->
  exists rs,
    fst (Driver2.findDuplicates db (Arr (map Utils.config_value newConfigs)) s) = Ok rs
    /\ Forall2 (fun r c =>
                  Driver2.collection r = Str (Utils.collection c)
                  /\ Driver2.results r =
                       omap (found_entry db "$_id" (Str (Utils.collection c)))
                            (map Str (Utils.fields c)))
               rs (List.filter (reported db) newConfigs).
Proof.
  intros Hconnect Hall. rewrite findDuplicates_fst by assumption.
  destruct (config_loop_healthy db newConfigs [] s Hall) as (new & s' & -> & Hnew).
  exists new. split; [reflexivity | exact Hnew].
Qed.

Lemma healthy_scan_reports_targets_with_duplicates_witness :
  exists rs,
    fst (Driver2.findDuplicates Example.healthy
           (Arr (map Utils.config_value
                   [{| Utils.collection := "users"; Utils.fields := ["tag"; "ssn"] |};
                    {| Utils.collection := "orders"; Utils.fields := ["sku"] |};
                    {| Utils.collection := Example.rels; Utils.fields := ["client"] |}]))
           Example.fresh) = Ok rs
    /\ map Driver2.collection rs = [Str "users"; Str Example.rels].
Proof.
  destruct (healthy_scan_reports_targets_with_duplicates Example.healthy
              [{| Utils.collection := "users"; Utils.fields := ["tag"; "ssn"] |};
               {| Utils.collection := "orders"; Utils.fields := ["sku"] |};
               {| Utils.collection := Example.rels; Utils.fields := ["client"] |}]
              Example.fresh eq_refl) as (rs & Hrs & _).
  - repeat constructor.
  - exists rs. split; [exact Hrs |].
    vm_compute in Hrs. injection Hrs as <-. reflexivity.
Defined.

(** ** One entry per collection name in the first driver *)

Lemma obj_set_keys {A} k (v : A) props x :
  In x (map fst (obj_set k v props)) -> x = k \/ In x (map fst props).
Proof.
  induction props as [| [k' v'] rest IH]; simpl.
  - intros [<- | []]. left. reflexivity.
  - destruct (String.eqb_spec k k') as [-> | Hne]; simpl.
    + tauto.
    + intros [<- | H]; [tauto |]. destruct (IH H); tauto.
Qed.

Lemma obj_set_NoDup {A} k (v : A) props :
  NoDup (map fst props) -> NoDup (map fst (obj_set k v props)).
Proof.
  induction props as [| [k' v'] rest IH]; simpl; intros Hnd.
  - apply NoDup_singleton.
  - apply NoDup_cons in Hnd as [Hk' Hnd].
    destruct (String.eqb_spec k k') as [-> | Hne]; simpl.
    + apply NoDup_cons. split; assumption.
    + apply NoDup_cons. split; [| apply IH; exact Hnd].
      intros Hin. apply list_elem_of_In, obj_set_keys in Hin as [-> | Hin].
      * apply Hne. reflexivity.
      * apply Hk', list_elem_of_In. exact Hin.
Qed.

Lemma append_length (x t : string) :
  String.length (x +:+ t) = (String.length x + String.length t)%nat.
Proof. induction x as [| a x IH]; simpl; [reflexivity | rewrite IH; reflexivity]. Qed.

Lemma append_inj_l (t x y : string) : x +:+ t = y +:+ t -> x = y.
Proof.
  revert y. induction x as [| a x IH]; intros [| b y] H; simpl in H.
  - reflexivity.
  - exfalso. apply (f_equal String.length) in H.
    rewrite ?append_length in H. simpl in H. rewrite ?append_length in H. lia.
  - exfalso. apply (f_equal String.length) in H.
    rewrite ?append_length in H. simpl in H. rewrite ?append_length in H. lia.
  - injection H as -> H. rewrite (IH y H). reflexivity.
Qed.

Lemma report_filename1_inj x y :
  Driver1.report_filename x = Driver1.report_filename y -> x = y.
Proof.
  unfold Driver1.report_filename, Driver1.outputDir. simpl. intros H.
  repeat (injection H as H).
  change (x +:+ "_duplicates.json" = y +:+ "_duplicates.json") in H.
  exact (append_inj_l _ _ _ H).
Qed.

(** The enumeration visits every key, each once. *)
Lemma insert_by_index_perm (l : list (N * string)) :
  fold_right insert_by_index [] l ≡ₚ l.
Proof.
  induction l as [| e l IH]; [reflexivity |]. cbn [fold_right].
  rewrite <- IH at 2. clear IH.
  induction (fold_right insert_by_index [] l) as [| x m IHm]; [reflexivity |].
  cbn [insert_by_index]. destruct (fst e <? fst x)%N; [reflexivity |].
  rewrite IHm. apply Permutation_swap.
Qed.

Lemma ordered_keys_perm (keys : list string) : ordered_keys keys ≡ₚ keys.
Proof.
  unfold ordered_keys. rewrite insert_by_index_perm.
  assert (Hsplit : forall l : list string,
             map snd (omap (fun k => (fun n => (n, k)) <$> array_index k) l)
             = filter (fun k => array_index k <> None) l).
  { induction l as [| k l IH]; [reflexivity |]. cbn [omap list_omap].
    rewrite filter_cons.
    destruct (array_index k) as [n |] eqn:Hk; cbn [fmap option_fmap option_map].
    - cbn [map snd]. rewrite IH. rewrite decide_True by discriminate. reflexivity.
    - rewrite IH. rewrite decide_False by (intros H; apply H; reflexivity). reflexivity. }
  rewrite Hsplit. rewrite Permutation_app_comm.
  apply (filter_app_complement (fun k => array_index k = None)).
Qed.

Section Driver1Invariant.
Variable db : Store.
Variable P : Driver1.results_object -> Prop.
Hypothesis P_set : forall k v o, P o -> P (obj_set k v o).

Lemma config_step1_invariant config resultsByCollection s :
  P resultsByCollection ->
  match Driver1.config_step db config resultsByCollection s with
  | (Ok res, _) => P res
  | _ => True
  end.
Proof.
  intros Hacc. unfold Driver1.config_step. rewrite lift_bind_run.
  destruct (get config "collection") as [collectionName | e | c]; try exact I.
  rewrite lift_bind_run.
  destruct (get config "fields") as [fields | e | c]; try exact I.
  destruct (negb (truthy collectionName) || negb (Array_isArray fields)).
  { rewrite log_bind_run. exact Hacc. }
  rewrite log_bind_run, bind_run. unfold open_collection.
  destruct (collection_ok db collectionName); [| exact I].
  cbn [mret M_ret]. rewrite lift_bind_run.
  destruct (iterate fields) as [items | e | c]; try exact I.
  rewrite bind_run.
  match goal with |- context [field_loop db ?i ?n ?f ?a ?st] =>
    destruct (field_loop db i n f a st) as [[collectionResults | e | c] s1] end;
    try exact I.
  destruct (0 <? length collectionResults)%nat; cbn; [| exact Hacc].
  unfold obj_assign. destruct (String.eqb _ "__proto__"); [| apply P_set]; exact Hacc.
Qed.

Lemma config_loop1_invariant configs : forall resultsByCollection s,
  P resultsByCollection ->
  match Driver1.config_loop db configs resultsByCollection s with
  | (Ok (res, _), _) => P res
  | _ => True
  end.
Proof.
  induction configs as [| config rest IH]; intros acc s Hacc.
  - exact Hacc.
  - cbn [Driver1.config_loop]. rewrite bind_run, attempt_run.
    pose proof (config_step1_invariant config acc s Hacc) as Hstep.
    destruct (Driver1.config_step db config acc s) as [[acc' | e | c] s1].
    + apply IH. exact Hstep.
    + exact Hacc.
    + exact I.
Qed.

Lemma findDuplicates1_invariant configs s :
  P [] ->
  match Driver1.findDuplicates db configs s with
  | (Ok res, _) => P res
  | _ => True
  end.
Proof.
  intros Hnil. unfold Driver1.findDuplicates, Driver1.try_block.
  rewrite !bind_run, attempt_run, bind_run. unfold connect.
  destruct (connect_ok db); [| exact Hnil].
  cbn [mret M_ret]. unfold lift.
  destruct (iterate configs) as [items | e | c]; [| exact Hnil | exact I].
  pose proof (config_loop1_invariant items [] s Hnil) as Hloop.
  destruct (Driver1.config_loop db items [] s) as [[[res thrown] | e | c] s1];
    try exact I.
  destruct thrown; exact Hloop.
Qed.
End Driver1Invariant.

(** X10.  The first driver returns at most one entry per collection name,
    whatever the plan repeats, so no two of its reports are written to the
    same file. *)
Theorem first_driver_one_report_per_collection (db : Store) (configs : value) (s : state) :
  exists rs,
    fst (Driver1.findDuplicates db configs s) = Ok rs
    /\ NoDup (map fst rs)
    /\ NoDup (map (fun kv => Driver1.report_filename (fst kv)) (Object_entries rs)).
Proof.
  pose proof (findDuplicates1_run db configs s) as Hrun.
  pose proof (findDuplicates1_invariant db (fun o => NoDup (map fst o))
                (fun k v o => obj_set_NoDup k v o) configs s (NoDup_nil_2 (A:=string))) as Hinv.
  destruct (Driver1.findDuplicates db configs s) as [[rs | e | c] s']; try contradiction.
  exists rs. split; [reflexivity | split; [exact Hinv |]].
  unfold Object_entries.
  assert (Hkeys : NoDup (ordered_keys (map fst rs))).
  { rewrite ordered_keys_perm. exact Hinv. }
  assert (Hall : forall ks : list string,
             (forall k, In k ks -> In k (map fst rs)) ->
             map (fun kv : string * list entry => Driver1.report_filename (fst kv))
                 (omap (fun k => (fun v => (k, v)) <$> assoc k rs) ks)
             = map Driver1.report_filename ks).
  { induction ks as [| k ks IH]; intros Hin; [reflexivity |].
    cbn [omap list_omap].
    assert (Hsome : exists v, assoc k rs = Some v).
    { specialize (Hin k (or_introl eq_refl)). clear -Hin.
      induction rs as [| [k' v'] rest IH]; [destruct Hin |].
      simpl. destruct (String.eqb_spec k k') as [-> | Hne]; [eauto |].
      destruct Hin as [Heq | Hin]; [simpl in Heq; congruence | exact (IH Hin)]. }
    destruct Hsome as [v ->]. cbn [fmap option_fmap option_map map fst].
    rewrite IH; [reflexivity |]. intros k' Hk'. apply Hin. right. exact Hk'. }
  rewrite Hall.
  - apply NoDup_fmap_2; [| exact Hkeys]. intros x y. apply report_filename1_inj.
  - intros k Hk. apply list_elem_of_In. apply list_elem_of_In in Hk.
    rewrite ordered_keys_perm in Hk. exact Hk.
Qed.

(** ** Cardinalities *)

Section Driver2Invariant.
Variable db : Store.
Variable P : Driver2.resultObj -> Prop.
Hypothesis P_enrich : forall collectionName collectionResults s r s',
  Driver2.enrich db collectionName collectionResults s = (Ok r, s') -> P r.

Lemma config_step_invariant config finalResults s :
  Forall P finalResults ->
  match Driver2.config_step db config finalResults s with
  | (Ok res, _) => Forall P res
  | _ => True
  end.
Proof.
  intros Hacc. unfold Driver2.config_step. rewrite lift_bind_run.
  destruct (get config "collection") as [collectionName | e | c]; try exact I.
  rewrite lift_bind_run.
  destruct (get config "fields") as [fields | e | c]; try exact I.
  destruct (negb (truthy collectionName) || negb (Array_isArray fields)).
  { rewrite log_bind_run. exact Hacc. }
  rewrite log_bind_run, bind_run. unfold open_collection.
  destruct (collection_ok db collectionName); [| exact I].
  cbn [mret M_ret]. rewrite lift_bind_run.
  destruct (iterate fields) as [items | e | c]; try exact I.
  rewrite bind_run.
  match goal with |- context [field_loop db ?i ?n ?f ?a ?st] =>
    destruct (field_loop db i n f a st) as [[collectionResults | e | c] s1] end;
    try exact I.
  destruct (0 <? length collectionResults)%nat; [| exact Hacc].
  rewrite bind_run.
  destruct (Driver2.enrich db collectionName collectionResults s1)
    as [[r | e | c] s2] eqn:He; try exact I.
  cbn. apply Forall_app. split; [exact Hacc |].
  constructor; [| constructor]. exact (P_enrich _ _ _ _ _ He).
Qed.

Lemma config_loop_invariant configs : forall finalResults s,
  Forall P finalResults ->
  match Driver2.config_loop db configs finalResults s with
  | (Ok (res, _), _) => Forall P res
  | _ => True
  end.
Proof.
  induction configs as [| config rest IH]; intros acc s Hacc.
  - exact Hacc.
  - cbn [Driver2.config_loop]. rewrite bind_run, attempt_run.
    pose proof (config_step_invariant config acc s Hacc) as Hstep.
    destruct (Driver2.config_step db config acc s) as [[acc' | e | c] s1].
    + apply IH. exact Hstep.
    + exact Hacc.
    + exact I.
Qed.

Lemma findDuplicates_invariant configs s :
  match Driver2.findDuplicates db configs s with
  | (Ok res, _) => Forall P res
  | _ => True
  end.
Proof.
  unfold Driver2.findDuplicates, Driver2.try_block.
  rewrite !bind_run, attempt_run, bind_run. unfold connect.
  destruct (connect_ok db); [| constructor].
  cbn [mret M_ret]. unfold lift.
  destruct (iterate configs) as [items | e | c]; [| constructor | exact I].
  pose proof (config_loop_invariant items [] s (Forall_nil_2 _)) as Hloop.
  destruct (Driver2.config_loop db items [] s) as [[[res thrown] | e | c] s1];
    try exact I.
  destruct thrown; exact Hloop.
Qed.
End Driver2Invariant.

(** What the lookup leaves in a result. *)
Lemma enrich_cardinalities db collectionName collectionResults s r s' :
  Driver2.enrich db collectionName collectionResults s = (Ok r, s') ->
  let doc := default Null (findOne_doc db "meta.rels"
                             (Obj [("collectionType", Driver2.collection r)])) in
  (Driver2.includes_rels (Driver2.collection r) = Ok true /\ truthy doc = true ->
   exists dest source d sc,
     get doc "dest" = Ok dest /\ Driver2.and_get dest "cardinality" = Ok d
     /\ get doc "source" = Ok source /\ Driver2.and_get source "cardinality" = Ok sc
     /\ Driver2.destCardinality r = Some d /\ Driver2.sourceCardinality r = Some sc)
  /\ (Driver2.includes_rels (Driver2.collection r) <> Ok true \/ truthy doc = false ->
      Driver2.destCardinality r = None /\ Driver2.sourceCardinality r = None).
Proof.
  unfold Driver2.enrich. rewrite lift_bind_run.
  destruct (Driver2.includes_rels collectionName) as [[|] | e | c] eqn:Hrels;
    try discriminate.
  2: { intros [= <- _]. cbn [Driver2.collection Driver2.destCardinality Driver2.sourceCardinality].
       rewrite Hrels. split; [intros [H _]; discriminate | auto]. }
  rewrite log_bind_run, bind_run. unfold findOne.
  destruct (findOne_ok db _ _); [| discriminate].
  cbn [mret M_ret].
  destruct (truthy (default Null (findOne_doc db "meta.rels"
                                    (Obj [("collectionType", collectionName)])))) eqn:Hdoc.
  - rewrite lift_bind_run.
    destruct (get _ "dest") as [dest | e | c] eqn:Hdest; try discriminate.
    rewrite lift_bind_run.
    destruct (Driver2.and_get dest "cardinality") as [d | e | c] eqn:Hd; try discriminate.
    rewrite lift_bind_run.
    destruct (get _ "source") as [source | e | c] eqn:Hsource; try discriminate.
    rewrite lift_bind_run.
    destruct (Driver2.and_get source "cardinality") as [sc | e | c] eqn:Hsc; try discriminate.
    intros [= <- _]. cbn [Driver2.collection Driver2.destCardinality Driver2.sourceCardinality].
    rewrite Hrels, Hdoc. split.
    + intros _. exists dest, source, d, sc. auto 6.
    + intros [H | H]; [destruct (H eq_refl) | discriminate].
  - rewrite log_bind_run. intros [= <- _].
    cbn [Driver2.collection Driver2.destCardinality Driver2.sourceCardinality].
    rewrite Hdoc. split; [intros [_ H]; discriminate | auto].
Qed.

(** X11.  In every result of the second driver, the two cardinalities are
    set exactly when the collection name contains [rels] and [meta.rels]
    holds a record for it; they are then [dest && dest.cardinality] and
    [source && source.cardinality] of that record.  In every other result
    neither is set. *)
Theorem cardinalities_follow_metadata (db : Store) (configs : value) (s : state) :
  exists rs,
    fst (Driver2.findDuplicates db configs s) = Ok rs
    /\ Forall (fun r =>
         let doc := default Null (findOne_doc db "meta.rels"
                                    (Obj [("collectionType", Driver2.collection r)])) in
         (Driver2.includes_rels (Driver2.collection r) = Ok true /\ truthy doc = true ->
          exists dest source d sc,
            get doc "dest" = Ok dest /\ Driver2.and_get dest "cardinality" = Ok d
            /\ get doc "source" = Ok source /\ Driver2.and_get source "cardinality" = Ok sc
            /\ Driver2.destCardinality r = Some d /\ Driver2.sourceCardinality r = Some sc)
         /\ (Driver2.includes_rels (Driver2.collection r) <> Ok true \/ truthy doc = false ->
             Driver2.destCardinality r = None /\ Driver2.sourceCardinality r = None)) rs.
Proof.
  pose proof (findDuplicates_run db configs s) as Hrun.
  pose proof (findDuplicates_invariant db _ (enrich_cardinalities db) configs s) as Hinv.
  destruct (Driver2.findDuplicates db configs s) as [[rs | e | c] s']; try contradiction.
  exists rs. split; [reflexivity | exact Hinv].
Qed.

(** X12.  A report of the second driver has the key [destCardinality]
    exactly when that cardinality was set to something other than
    [undefined], and likewise [sourceCardinality], each on its own: a
    metadata record without [dest] gives a report without
    [destCardinality], whatever [source] holds. *)
Theorem report_keeps_defined_cardinalities (r : Driver2.resultObj) :
  exists props,
    JSON_stringify (Driver2.resultObj_value r) = Json (Obj props)
    /\ assoc "destCardinality" props
       = match Driver2.destCardinality r with
         | Some Undefined | None => None
         | Some v => Some (stringified v)
         end
    /\ assoc "sourceCardinality" props
       = match Driver2.sourceCardinality r with
         | Some Undefined | None => None
         | Some v => Some (stringified v)
         end.
Proof.
  unfold JSON_stringify, Driver2.resultObj_value.
  destruct r as [coll res dc sc]. cbn [Driver2.collection Driver2.results
    Driver2.destCardinality Driver2.sourceCardinality].
  destruct coll; destruct dc as [[] |]; destruct sc as [[] |];
    (eexists; split; [reflexivity | split; reflexivity]).
Qed.

(** ** The lookup in [meta.rels] *)

Section Lookup.
Variable db : Store.




End Lookup.







(** ** Making and closing the client *)

Section ClientFacts.
Variable db : Store.
Variable client : Client.

(** The whole call is the scan when the client is made and closes; a
    client that cannot be made throws before anything is done, one that
    cannot be closed throws after the scan. *)
Lemma findDuplicates_call_run configs s :
  exists rs s',
    Driver2.findDuplicates db configs s = (Ok rs, s')
    /\ files s' = files s
    /\ Driver2.findDuplicates_call db client configs s
       = if uri_ok client
         then if close_ok client then (Ok rs, s') else (Throw (MongoError "close"), s')
         else (Throw (MongoError "MongoClient"), s).
Proof.
  pose proof (findDuplicates_run db configs s) as Hrun.
  destruct (Driver2.findDuplicates db configs s) as [[rs | e | c] s'] eqn:Hscan;
    try contradiction.
  exists rs, s'. split; [reflexivity |]. split; [exact (proj2 Hrun) |].
  unfold Driver2.findDuplicates_call, new_MongoClient. rewrite bind_run.
  destruct (uri_ok client); [| reflexivity].
  cbn [mret M_ret]. unfold try_finally. rewrite Hscan. unfold close.
  destruct (close_ok client); reflexivity.
Qed.

Lemma findDuplicates1_call_run configs s :
  exists rs s',
    Driver1.findDuplicates db configs s = (Ok rs, s')
    /\ files s' = files s
    /\ Driver1.findDuplicates_call db client configs s
       = if uri_ok client
         then if close_ok client then (Ok rs, s') else (Throw (MongoError "close"), s')
         else (Throw (MongoError "MongoClient"), s).
Proof.
  pose proof (findDuplicates1_run db configs s) as Hrun.
  destruct (Driver1.findDuplicates db configs s) as [[rs | e | c] s'] eqn:Hscan;
    try contradiction.
  exists rs, s'. split; [reflexivity |]. split; [exact (proj2 Hrun) |].
  unfold Driver1.findDuplicates_call, new_MongoClient. rewrite bind_run.
  destruct (uri_ok client); [| reflexivity].
  cbn [mret M_ret]. unfold try_finally. rewrite Hscan. unfold close.
  destruct (close_ok client); reflexivity.
Qed.
End ClientFacts.

(** ** The names of the second driver's reports *)

Lemma plain_name_split n : plain_name n = true -> split_path n = [n].
Proof.
  induction n as [| a n IH]; [reflexivity |].
  cbn [plain_name split_path]. intros H. apply andb_true_iff in H as [Ha Hn].
  apply negb_true_iff in Ha. rewrite Ha, (IH Hn). reflexivity.
Qed.

Lemma plain_name_app a b : plain_name (a +:+ b) = plain_name a && plain_name b.
Proof.
  induction a as [| x a IH]; [reflexivity |].
  simpl. rewrite IH, andb_assoc. reflexivity.
Qed.

Lemma long_name_differs (n short : string) :
  (String.length short < String.length n)%nat -> String.eqb n short = false.
Proof.
  intros Hlen. destruct (String.eqb_spec n short) as [-> | _]; [lia | reflexivity].
Qed.

(** For a collection name without [/] the report is the file of that name
    in the report directory. *)
Lemma report_filename_plain (c : string) :
  plain_name c = true ->
  Driver2.report_filename (Str c)
  = "output/duplicates_json/" +:+ c +:+ "_duplicates.json".
Proof.
  intros Hplain. unfold Driver2.report_filename. cbn [to_string].
  change Driver2.outputDir with "output/duplicates_json".
  set (name := c +:+ "_duplicates.json").
  assert (Hlen : (2 < String.length name)%nat).
  { subst name. rewrite append_length. simpl. lia. }
  assert (Hname : plain_name name = true).
  { subst name. rewrite plain_name_app, Hplain. reflexivity. }
  assert (Hrel : is_absolute name = false).
  { destruct name as [| a name']; [reflexivity |].
    cbn [plain_name] in Hname. apply andb_true_iff in Hname as [Ha _].
    apply negb_true_iff in Ha. exact Ha. }
  unfold path_resolve. cbn [resolved_from].
  rewrite (long_name_differs name EmptyString) by (simpl; lia).
  rewrite Hrel. cbn [String.eqb Ascii.eqb Bool.eqb is_absolute negb flat_map].
  rewrite (plain_name_split name Hname).
  cbn [split_path Ascii.eqb Bool.eqb app normalize_parts String.eqb orb].
  rewrite (long_name_differs name EmptyString) by (simpl; lia).
  rewrite (long_name_differs name ".") by (simpl; lia).
  rewrite (long_name_differs name "..") by (simpl; lia).
  cbn [orb normalize_parts rev app join]. reflexivity.
Qed.

(** ** Writing the reports *)

Lemma report_file_among (rest : list Driver2.resultObj) (f : string) :
  (exists r, In r rest /\ Driver2.report_filename (Driver2.collection r) = f)
  \/ (forall r, In r rest -> f <> Driver2.report_filename (Driver2.collection r)).
Proof.
  induction rest as [| r0 rest [(r & Hr & Hf) | Hnone]].
  - right. intros r [].
  - left. exists r. split; [right; exact Hr | exact Hf].
  - destruct (string_dec (Driver2.report_filename (Driver2.collection r0)) f) as [E | Hne].
    + left. exists r0. split; [left; reflexivity | exact E].
    + right. intros r [<- | Hr]; [congruence | exact (Hnone r Hr)].
Qed.

(** The loop over the results always completes; a file that can be
    written holds the report of the last result of its name, and the files
    that cannot be written or are no report of a result stay as they
    were. *)
Lemma write_loop_reports
  (write_ok : string -> bool) (duplicatesResults : list Driver2.resultObj) : forall s,
  exists s',
    Driver2.write_loop write_ok duplicatesResults s = (Ok tt, s')
    /\ (forall r, In r duplicatesResults ->
          write_ok (Driver2.report_filename (Driver2.collection r)) = true ->
          exists r',
            In r' duplicatesResults
            /\ Driver2.report_filename (Driver2.collection r')
               = Driver2.report_filename (Driver2.collection r)
            /\ files s' !! Driver2.report_filename (Driver2.collection r)
               = Some (JSON_stringify (Driver2.resultObj_value r')))
    /\ (forall p, write_ok p = false -> files s' !! p = files s !! p)
    /\ (forall p, (forall r, In r duplicatesResults ->
                     p <> Driver2.report_filename (Driver2.collection r)) ->
                  files s' !! p = files s !! p).
Proof.
  induction duplicatesResults as [| r0 rest IH]; intros s.
  - exists s. split; [reflexivity |]. split; [intros r [] |]. split; reflexivity.
  - cbn [Driver2.write_loop]. rewrite bind_run. unfold try_catch.
    rewrite bind_run. unfold writeFile.
    set (f0 := Driver2.report_filename (Driver2.collection r0)).
    destruct (write_ok f0) eqn:Hw0; cbn [log].
    + match goal with |- context [Driver2.write_loop _ _ ?st] =>
        destruct (IH st) as (s' & -> & Hwritten & Hfailed & Hother) end.
      exists s'. split; [reflexivity |]. split; [| split].
      * intros r [<- | Hr] Hw.
        -- destruct (report_file_among rest f0) as [(r' & Hr' & Hf') | Hnone].
           ++ destruct (Hwritten r' Hr') as (r'' & Hr'' & Hf'' & Hfile).
              { rewrite Hf'. exact Hw0. }
              exists r''. split; [right; exact Hr'' |].
              fold f0. rewrite <- Hf'. split; assumption.
           ++ exists r0. split; [left; reflexivity |]. split; [reflexivity |].
              fold f0. rewrite (Hother f0 Hnone). cbn. apply lookup_insert_eq.
        -- destruct (Hwritten r Hr Hw) as (r' & Hr' & Hf' & Hfile).
           exists r'. split; [right; exact Hr' |]. split; assumption.
      * intros p Hp. rewrite (Hfailed p Hp). cbn. apply lookup_insert_ne.
        intros E. change (f0 = p) in E. rewrite <- E, Hw0 in Hp. discriminate.
      * intros p Hp. rewrite Hother by (intros r Hr; apply Hp; right; exact Hr).
        cbn. apply lookup_insert_ne. intros E.
        exact (Hp r0 (or_introl eq_refl) (eq_sym E)).
    + match goal with |- context [Driver2.write_loop _ _ ?st] =>
        destruct (IH st) as (s' & -> & Hwritten & Hfailed & Hother) end.
      exists s'. split; [reflexivity |]. split; [| split].
      * intros r [<- | Hr] Hw; [fold f0 in Hw; rewrite Hw0 in Hw; discriminate |].
        destruct (Hwritten r Hr Hw) as (r' & Hr' & Hf' & Hfile).
        exists r'. split; [right; exact Hr' |]. split; assumption.
      * intros p Hp. exact (Hfailed p Hp).
      * intros p Hp. apply Hother. intros r Hr. apply Hp. right. exact Hr.
Qed.



(** ** The run of the second driver *)

Section Main2Run.
Variable db : Store.
Variable write_ok : string -> bool.
Variable mkdir_ok : string -> bool.
Variable client : Client.

(** The run, step by step: the generator always returns; the plan is what
    the plan file then holds; the scan, the summary, the directory and the
    reports follow. *)
Lemma main2_run s :
  exists s1,
    Utils.generateConfigs write_ok s = (Ok tt, s1)
    /\ Driver2.main db write_ok mkdir_ok client s
       = match files s1 !! Driver2.configFile with
         | Some (Json plan) =>
             match Driver2.findDuplicates_call db client plan s1 with
             | (Ok rs, s2) =>
                 let s3 :=
                   {| console := console s2
                        ++ [Summary (JSON_stringify (Arr (map Driver2.resultObj_value rs)))];
                      files := files s2 |} in
                 if mkdir_ok Driver2.outputDir
                 then Driver2.write_loop write_ok rs s3
                 else (Exit 1,
                       {| console := console s3
                            ++ [MkdirError Driver2.outputDir (MkdirFailed Driver2.outputDir)];
                          files := files s3 |})
             | (Throw e, s2) => (Throw e, s2)
             | (Exit c, s2) => (Exit c, s2)
             end
         | Some NotJson =>
             (Exit 1,
              {| console := console s1
                   ++ [Uncaught (ConfigReadError Driver2.configFile SyntaxError)];
                 files := files s1 |})
         | None =>
             (Exit 1,
              {| console := console s1
                   ++ [Uncaught (ConfigReadError Driver2.configFile
                                   (ENOENT Driver2.configFile))];
                 files := files s1 |})
         end.
Proof.
  pose proof (generateConfigs_run write_ok s) as Hgen.
  destruct (Utils.generateConfigs write_ok s) as [[[] | e | c] s1] eqn:Hrun;
    try contradiction.
  exists s1. split; [reflexivity |].
  unfold Driver2.main. rewrite bind_run, Hrun, bind_run.
  unfold try_catch at 1. unfold Driver2.loadConfigs, try_catch.
  rewrite bind_run. unfold readFile.
  destruct (files s1 !! Driver2.configFile) as [[plan |] |]; try reflexivity.
  cbn [lift JSON_parse]. rewrite bind_run.
  destruct (Driver2.findDuplicates_call db client plan s1) as [[rs | e | c] s2];
    try reflexivity.
  rewrite log_bind_run, bind_run. unfold try_catch, mkdir.
  destruct (mkdir_ok Driver2.outputDir); reflexivity.
Qed.
End Main2Run.

(** C2, as the code has it.  When the failure report is missing or is not
    JSON, [generateConfigs] logs the failure and returns normally, changing
    no file, and the run goes on to the loader.  It exits with status 1
    when the plan file is missing or is not JSON.  Otherwise the plan that
    file already held is what is scanned: the run ends with an uncaught
    exception if the client cannot be made (before the scan) or closed
    (after it), exits with status 1 after the scan and the summary if the
    report directory cannot be made, and otherwise completes with the
    reports of that scan written. *)
Theorem generator_failure_logged_run_continues
  (db : Store) (write_ok mkdir_ok : string -> bool) (client : Client) (s : state) :
  files s !! Utils.inputFile = None \/ files s !! Utils.inputFile = Some NotJson ->
  exists err,
    let s1 := {| console := console s ++ [GenerationFailed err]; files := files s |} in
    Utils.generateConfigs write_ok s = (Ok tt, s1)
    /\ (files s !! Driver2.configFile = None \/ files s !! Driver2.configFile = Some NotJson ->
        exists cause,
          Driver2.main db write_ok mkdir_ok client s
          = (Exit 1,
             {| console := console s1
                  ++ [Uncaught (ConfigReadError Driver2.configFile cause)];
                files := files s |}))
    /\ (forall plan, files s !! Driver2.configFile = Some (Json plan) ->
        exists rs s2 s4,
          let summary :=
            Summary (JSON_stringify (Arr (map Driver2.resultObj_value rs))) in
          Driver2.findDuplicates db plan s1 = (Ok rs, s2)
          /\ Driver2.write_loop write_ok rs
               {| console := console s2 ++ [summary]; files := files s |} = (Ok tt, s4)
          /\ (forall r, In r rs ->
                write_ok (Driver2.report_filename (Driver2.collection r)) = true ->
                exists r',
                  In r' rs
                  /\ Driver2.report_filename (Driver2.collection r')
                     = Driver2.report_filename (Driver2.collection r)
                  /\ files s4 !! Driver2.report_filename (Driver2.collection r)
                     = Some (JSON_stringify (Driver2.resultObj_value r')))
          /\ Driver2.main db write_ok mkdir_ok client s
             = if uri_ok client
               then if close_ok client
                    then if mkdir_ok Driver2.outputDir
                         then (Ok tt, s4)
                         else (Exit 1,
                               {| console := (console s2 ++ [summary])
                                    ++ [MkdirError Driver2.outputDir
                                          (MkdirFailed Driver2.outputDir)];
                                  files := files s |})
                    else (Throw (MongoError "close"), s2)
               else (Throw (MongoError "MongoClient"), s1)).
Proof.
  intros Hreport.
  destruct (generateConfigs_without_report write_ok s Hreport) as [err Hgen].
  exists err. intros s1. split; [exact Hgen |].
  destruct (main2_run db write_ok mkdir_ok client s) as (s1' & Hgen' & Hmain).
  rewrite Hgen in Hgen'. injection Hgen' as <-. fold s1 in Hmain.
  change (files s1) with (files s) in Hmain. split.
  - intros [Hplan | Hplan]; rewrite Hplan in Hmain; eexists; exact Hmain.
  - intros plan Hplan. rewrite Hplan in Hmain.
    destruct (findDuplicates_call_run db client plan s1) as (rs & s2 & Hscan & Hfiles & Hcall).
    change (files s1) with (files s) in Hfiles.
    destruct (write_loop_reports write_ok rs
                {| console := console s2
                     ++ [Summary (JSON_stringify (Arr (map Driver2.resultObj_value rs)))];
                   files := files s |}) as (s4 & Hwrite & Hwritten & _).
    exists rs, s2, s4. cbn zeta.
    split; [exact Hscan |]. split; [exact Hwrite |]. split; [exact Hwritten |].
    rewrite Hmain, Hcall.
    destruct (uri_ok client); [| reflexivity].
    destruct (close_ok client); [| reflexivity].
    cbn zeta. rewrite Hfiles.
    destruct (mkdir_ok Driver2.outputDir); [exact Hwrite | reflexivity].
Qed.

(** No failure report, and a plan left by an earlier run. *)
Lemma generator_failure_logged_run_continues_witness :
  let plan := Arr [Example.target "users" ["ssn"]] in
  let s := {| console := []; files := {[ Driver2.configFile := Json plan ]} |} in
  exists err rs s2,
    Driver2.findDuplicates Example.healthy plan
      {| console := [GenerationFailed err]; files := files s |} = (Ok rs, s2)
    /\ fst (Driver2.main Example.healthy (fun _ => true) (fun _ => true)
              {| uri_ok := true; close_ok := true |} s) = Ok tt.
Proof.
  intros plan s.
  destruct (generator_failure_logged_run_continues Example.healthy (fun _ => true)
              (fun _ => true) {| uri_ok := true; close_ok := true |} s)
    as (err & _ & _ & Hplan).
  - left. vm_compute. reflexivity.
  - destruct (Hplan plan) as (rs & s2 & s4 & Hscan & _ & _ & Hmain).
    + vm_compute. reflexivity.
    + exists err, rs, s2. split; [exact Hscan |]. rewrite Hmain. reflexivity.
Defined.

(** C2, as stated, fails: with no failure report but a plan file left by an
    earlier run, the generator returns normally and the run completes with
    exit status 0 after scanning the old plan and writing its report. *)
Lemma missing_report_does_not_abort_run :
  let s := {| console := [];
              files := {[ Driver2.configFile := Json (Arr [Example.target "users" ["ssn"]]) ]} |} in
  let run := Driver2.main Example.healthy (fun _ => true) (fun _ => true)
               {| uri_ok := true; close_ok := true |} s in
  files s !! Utils.inputFile = None
  /\ fst (Utils.generateConfigs (fun _ => true) s) = Ok tt
  /\ fst run = Ok tt
  /\ console (snd run) !! 0%nat = Some (GenerationFailed (ENOENT Utils.inputFile))
  /\ console (snd run) !! 1%nat = Some (ProcessingCollection (Str "users"))
  /\ is_Some (files (snd run) !! "output/duplicates_json/users_duplicates.json").
Proof.
  repeat split; try (vm_compute; reflexivity).
  vm_compute. eexists. reflexivity.
Qed.

(** X13.  How the second driver's run ends is decided by the plan file as
    the generator left it, by the client and by the report directory, and
    by nothing else: whatever fails in the scan or in writing the reports
    is caught.  The run exits with status 1 when the plan file is missing
    or is not JSON; with a plan, it ends with an uncaught exception when
    the client cannot be made or cannot be closed, exits with status 1
    when the report directory cannot be made, and completes otherwise. *)
Theorem second_driver_exit_status
  (db : Store) (write_ok mkdir_ok : string -> bool) (client : Client) (s : state) :
  fst (Driver2.main db write_ok mkdir_ok client s)
  = match files (snd (Utils.generateConfigs write_ok s)) !! Driver2.configFile with
    | Some (Json _) =>
        if uri_ok client
        then if close_ok client
             then if mkdir_ok Driver2.outputDir then Ok tt else Exit 1
             else Throw (MongoError "close")
        else Throw (MongoError "MongoClient")
    | _ => Exit 1
    end.
Proof.
  destruct (main2_run db write_ok mkdir_ok client s) as (s1 & Hgen & ->).
  rewrite Hgen. cbn [snd].
  destruct (files s1 !! Driver2.configFile) as [[plan |] |]; try reflexivity.
  destruct (findDuplicates_call_run db client plan s1) as (rs & s2 & _ & _ & ->).
  destruct (uri_ok client); [| reflexivity].
  destruct (close_ok client); [| reflexivity].
  cbn zeta. destruct (mkdir_ok Driver2.outputDir); [| reflexivity].
  match goal with |- context [Driver2.write_loop _ _ ?st] =>
    destruct (write_loop_reports write_ok rs st) as (s4 & -> & _) end.
  reflexivity.
Qed.

(** ** The run of the first driver *)

Lemma assoc_some {A} k (props : list (string * A)) :
  In k (map fst props) -> exists v, assoc k props = Some v.
Proof.
  induction props as [| [k' v'] rest IH]; [intros [] |].
  simpl. destruct (String.eqb_spec k k') as [-> | Hne]; [eauto |].
  intros [Heq | Hin]; [congruence | exact (IH Hin)].
Qed.

Lemma assoc_In {A} k (v : A) (props : list (string * A)) :
  assoc k props = Some v -> In (k, v) props.
Proof.
  induction props as [| [k' v'] rest IH]; [discriminate |].
  simpl. destruct (String.eqb_spec k k') as [-> | Hne].
  - intros [= ->]. left. reflexivity.
  - intros H. right. exact (IH H).
Qed.

(** [Object.entries] lists the keys in enumeration order, each with its
    value. *)
Lemma Object_entries_keys {A} (props : list (string * A)) :
  map fst (Object_entries props) = ordered_keys (map fst props).
Proof.
  unfold Object_entries.
  assert (Hall : forall ks : list string,
             (forall k, In k ks -> In k (map fst props)) ->
             map fst (omap (fun k => (fun v => (k, v)) <$> assoc k props) ks) = ks).
  { induction ks as [| k ks IH]; intros Hin; [reflexivity |].
    cbn [omap list_omap].
    destruct (assoc_some k props (Hin k (or_introl eq_refl))) as [v ->].
    cbn [fmap option_fmap option_map map fst].
    rewrite IH; [reflexivity |]. intros k' Hk'. apply Hin. right. exact Hk'. }
  apply Hall. intros k Hk. apply list_elem_of_In. apply list_elem_of_In in Hk.
  rewrite ordered_keys_perm in Hk. exact Hk.
Qed.

Lemma Object_entries_In {A} k (v : A) (props : list (string * A)) :
  In (k, v) (Object_entries props) -> assoc k props = Some v.
Proof.
  unfold Object_entries. intros Hin. apply list_elem_of_In in Hin.
  apply list_elem_of_omap in Hin as (k' & _ & Hk).
  destruct (assoc k' props) as [v' |] eqn:E; [| discriminate].
  cbn in Hk. injection Hk as <- <-. exact E.
Qed.

Section Main1Run.
Variable db : Store.
Variable write_ok : string -> bool.
Variable mkdir_ok : string -> bool.
Variable client : Client.

(** With one entry for a name, a report that can be written holds the
    results of its name, and no file but the reports changes. *)
Lemma write_loop1_reports entries : forall s,
  NoDup (map fst entries) ->
  exists s',
    Driver1.write_loop write_ok entries s = (Ok tt, s')
    /\ (forall name results, In (name, results) entries ->
          write_ok (Driver1.report_filename name) = true ->
          files s' !! Driver1.report_filename name
          = Some (JSON_stringify (Driver1.report name results)))
    /\ (forall p, (forall name, In name (map fst entries) ->
                     p <> Driver1.report_filename name) ->
                  files s' !! p = files s !! p).
Proof.
  induction entries as [| [name0 results0] rest IH]; intros s Hnd.
  - exists s. split; [reflexivity |]. split; [intros name results [] | reflexivity].
  - cbn [map fst] in Hnd. apply NoDup_cons in Hnd as [Hfresh Hnd].
    assert (Hkept : forall s1 s2,
               Driver1.write_loop write_ok rest s1 = (Ok tt, s2) ->
               files s2 !! Driver1.report_filename name0
               = files s1 !! Driver1.report_filename name0).
    { intros s1 s2 Hloop. destruct (IH s1 Hnd) as (s2' & Hloop' & _ & Hother).
      rewrite Hloop in Hloop'. injection Hloop' as <-. apply Hother.
      intros name Hname E. apply report_filename1_inj in E. subst name.
      apply Hfresh, list_elem_of_In. exact Hname. }
    cbn [Driver1.write_loop]. rewrite bind_run. unfold try_catch.
    rewrite bind_run. unfold writeFile.
    destruct (write_ok (Driver1.report_filename name0)) eqn:Hw0; cbn [log].
    + match goal with |- context [Driver1.write_loop _ _ ?st] =>
        destruct (IH st Hnd) as (s' & Hloop & Hwritten & Hother);
        pose proof (Hkept st s' Hloop) as Hhead end.
      rewrite Hloop. exists s'. split; [reflexivity |]. split.
      * intros name results [[= <- <-] | Hin] Hw.
        -- rewrite Hhead. cbn. apply lookup_insert_eq.
        -- exact (Hwritten name results Hin Hw).
      * intros p Hp. rewrite Hother by (intros name Hname; apply Hp; right; exact Hname).
        cbn. apply lookup_insert_ne. intros E.
        exact (Hp name0 (or_introl eq_refl) (eq_sym E)).
    + match goal with |- context [Driver1.write_loop _ _ ?st] =>
        destruct (IH st Hnd) as (s' & Hloop & Hwritten & Hother) end.
      rewrite Hloop. exists s'. split; [reflexivity |]. split.
      * intros name results [[= <- <-] | Hin] Hw; [congruence |].
        exact (Hwritten name results Hin Hw).
      * intros p Hp. rewrite Hother by (intros name Hname; apply Hp; right; exact Hname).
        reflexivity.
Qed.

Lemma main1_run s :
  exists s1,
    Utils.generateConfigs write_ok s = (Ok tt, s1)
    /\ Driver1.main db write_ok mkdir_ok client s
       = match files s1 !! Driver1.default_configFile with
         | Some (Json plan) =>
             match Driver1.findDuplicates_call db client plan s1 with
             | (Ok rs, s2) =>
                 let s3 :=
                   {| console := console s2
                        ++ [Summary (JSON_stringify (Driver1.results_value rs))];
                      files := files s2 |} in
                 if mkdir_ok Driver1.outputDir
                 then Driver1.write_loop write_ok (Object_entries rs) s3
                 else (Exit 1,
                       {| console := console s3
                            ++ [MkdirError Driver1.outputDir (MkdirFailed Driver1.outputDir)];
                          files := files s3 |})
             | (Throw e, s2) => (Throw e, s2)
             | (Exit c, s2) => (Exit c, s2)
             end
         | Some NotJson =>
             (Exit 1,
              {| console := console s1
                   ++ [ConfigReadFailed Driver1.default_configFile SyntaxError];
                 files := files s1 |})
         | None =>
             (Exit 1,
              {| console := console s1
                   ++ [ConfigReadFailed Driver1.default_configFile
                         (ENOENT Driver1.default_configFile)];
                 files := files s1 |})
         end.
Proof.
  pose proof (generateConfigs_run write_ok s) as Hgen.
  destruct (Utils.generateConfigs write_ok s) as [[[] | e | c] s1] eqn:Hrun;
    try contradiction.
  exists s1. split; [reflexivity |].
  unfold Driver1.main. rewrite bind_run, Hrun, bind_run, loadConfigs1_run.
  destruct (files s1 !! Driver1.default_configFile) as [[plan |] |]; try reflexivity.
  rewrite bind_run.
  destruct (Driver1.findDuplicates_call db client plan s1) as [[rs | e | c] s2];
    try reflexivity.
  rewrite log_bind_run, bind_run. unfold try_catch, mkdir.
  destruct (mkdir_ok Driver1.outputDir); reflexivity.
Qed.
End Main1Run.

(** C10.  The generator always returns and can change one file only,
    [output/duplicates_json/duplicateKeys.json], where it writes the plan
    when it succeeds.  The first driver loads its plan from
    [output/duplicateKeys.json], which the generator leaves as it was:
    without a plan there the run exits with status 1 whatever the
    generator wrote, and with a plan there it is that plan which is
    scanned.  The report of each collection of the result is written to
    [output/duplicaties_json/<collection>_duplicates.json], and no file
    but these and the generator's changes.  The second driver loads the
    file the generator writes and puts the report of a collection named
    without [/] in [output/duplicates_json/<collection>_duplicates.json]. *)
Theorem artifact_paths_inconsistent
  (db : Store) (write_ok mkdir_ok : string -> bool) (client : Client) (s : state) :
  exists s1,
    Utils.generateConfigs write_ok s = (Ok tt, s1)
    /\ (forall p, p <> "output/duplicates_json/duplicateKeys.json" ->
                  files s1 !! p = files s !! p)
    /\ (forall data newConfigs,
          files s !! Utils.inputFile = Some (Json data) ->
          Utils.collection_loop data (for_in_keys data) [] = Ok newConfigs ->
          write_ok "output/duplicates_json/duplicateKeys.json" = true ->
          files s1 !! "output/duplicates_json/duplicateKeys.json"
          = Some (JSON_stringify (Arr (map Utils.config_value newConfigs))))
    /\ (files s !! "output/duplicateKeys.json" = None
        \/ files s !! "output/duplicateKeys.json" = Some NotJson ->
        exists cause,
          Driver1.main db write_ok mkdir_ok client s
          = (Exit 1,
             {| console := console s1
                  ++ [ConfigReadFailed "output/duplicateKeys.json" cause];
                files := files s1 |}))
    /\ (forall plan,
          files s !! "output/duplicateKeys.json" = Some (Json plan) ->
          uri_ok client = true ->
          close_ok client = true ->
          mkdir_ok "output/duplicaties_json" = true ->
          exists rs s2 s4,
            Driver1.findDuplicates db plan s1 = (Ok rs, s2)
            /\ Driver1.main db write_ok mkdir_ok client s = (Ok tt, s4)
            /\ (forall name results,
                  In (name, results) (Object_entries rs) ->
                  write_ok ("output/duplicaties_json/" +:+ name +:+ "_duplicates.json")
                  = true ->
                  files s4 !! ("output/duplicaties_json/" +:+ name +:+ "_duplicates.json")
                  = Some (JSON_stringify (Driver1.report name results)))
            /\ (forall p,
                  p <> "output/duplicates_json/duplicateKeys.json" ->
                  (forall name,
                     p <> "output/duplicaties_json/" +:+ name +:+ "_duplicates.json") ->
                  files s4 !! p = files s !! p))
    /\ (forall plan,
          files s1 !! "output/duplicates_json/duplicateKeys.json" = Some (Json plan) ->
          uri_ok client = true ->
          close_ok client = true ->
          mkdir_ok "output/duplicates_json" = true ->
          exists rs s2 s4,
            Driver2.findDuplicates db plan s1 = (Ok rs, s2)
            /\ Driver2.main db write_ok mkdir_ok client s = (Ok tt, s4)
            /\ forall r c,
                 In r rs ->
                 Driver2.collection r = Str c ->
                 plain_name c = true ->
                 write_ok ("output/duplicates_json/" +:+ c +:+ "_duplicates.json") = true ->
                 exists r',
                   In r' rs
                   /\ files s4 !! ("output/duplicates_json/" +:+ c +:+ "_duplicates.json")
                      = Some (JSON_stringify (Driver2.resultObj_value r'))).
Proof.
  destruct (main1_run db write_ok mkdir_ok client s) as (s1 & Hgen & Hmain1).
  destruct (main2_run db write_ok mkdir_ok client s) as (s1' & Hgen' & Hmain2).
  rewrite Hgen in Hgen'. injection Hgen' as <-.
  assert (Hs1 : s1 = snd (Utils.generateConfigs write_ok s)) by (rewrite Hgen; reflexivity).
  assert (Hleft : forall p, p <> "output/duplicates_json/duplicateKeys.json" ->
                    files s1 !! p = files s !! p).
  { pose proof (generateConfigs_run write_ok s) as H. rewrite Hgen in H. exact H. }
  change Driver1.default_configFile with "output/duplicateKeys.json" in Hmain1.
  rewrite (Hleft "output/duplicateKeys.json") in Hmain1 by discriminate.
  exists s1. split; [exact Hgen |]. split; [exact Hleft |]. split; [| split; [| split]].
  - intros data newConfigs Hfile Hloop Hwrite. rewrite Hs1.
    unfold Utils.generateConfigs, try_catch. rewrite bind_run. unfold readFile.
    rewrite Hfile. cbn [JSON_parse]. rewrite lift_bind_run, lift_bind_run, Hloop.
    rewrite bind_run. unfold writeFile.
    change Utils.outputFile with "output/duplicates_json/duplicateKeys.json".
    rewrite Hwrite. cbn. apply lookup_insert_eq.
  - intros [Hplan | Hplan]; rewrite Hplan in Hmain1; eexists; exact Hmain1.
  - intros plan Hplan Huri Hclose Hmkdir. rewrite Hplan in Hmain1.
    destruct (findDuplicates1_call_run db client plan s1)
      as (rs & s2 & Hscan & Hfiles & Hcall).
    rewrite Hcall, Huri, Hclose in Hmain1. cbn zeta in Hmain1.
    change Driver1.outputDir with "output/duplicaties_json" in Hmain1.
    rewrite Hmkdir in Hmain1.
    pose proof (findDuplicates1_invariant db (fun o => NoDup (map fst o))
                  (fun k v o => obj_set_NoDup k v o) plan s1 (NoDup_nil_2 (A:=string)))
      as Hkeys.
    rewrite Hscan in Hkeys.
    assert (Hnd : NoDup (map fst (Object_entries rs))).
    { rewrite Object_entries_keys, ordered_keys_perm. exact Hkeys. }
    match type of Hmain1 with _ = Driver1.write_loop _ _ ?st =>
      destruct (write_loop1_reports write_ok (Object_entries rs) st Hnd)
        as (s4 & Hloop & Hwritten & Hother) end.
    rewrite Hloop in Hmain1. cbn [files] in Hother.
    exists rs, s2, s4. split; [exact Hscan |]. split; [exact Hmain1 |]. split.
    + intros name results Hin Hw. exact (Hwritten name results Hin Hw).
    + intros p Hgenfile Hreport. rewrite Hother.
      * rewrite Hfiles. apply Hleft. exact Hgenfile.
      * intros name _. exact (Hreport name).
  - intros plan Hplan Huri Hclose Hmkdir.
    change Driver2.configFile with "output/duplicates_json/duplicateKeys.json" in Hmain2.
    rewrite Hplan in Hmain2.
    destruct (findDuplicates_call_run db client plan s1)
      as (rs & s2 & Hscan & Hfiles & Hcall).
    rewrite Hcall, Huri, Hclose in Hmain2. cbn zeta in Hmain2.
    change Driver2.outputDir with "output/duplicates_json" in Hmain2.
    rewrite Hmkdir in Hmain2.
    match type of Hmain2 with _ = Driver2.write_loop _ _ ?st =>
      destruct (write_loop_reports write_ok rs st) as (s4 & Hloop & Hwritten & _) end.
    rewrite Hloop in Hmain2.
    exists rs, s2, s4. split; [exact Hscan |]. split; [exact Hmain2 |].
    intros r c Hin Hcoll Hplain Hw.
    pose proof (report_filename_plain c Hplain) as Hname.
    destruct (Hwritten r Hin) as (r' & Hin' & _ & Hfile).
    { rewrite Hcoll, Hname. exact Hw. }
    rewrite Hcoll, Hname in Hfile. exists r'. split; assumption.
Qed.

(** The report of the index build names [users]; the plan left in
    [output/duplicateKeys.json] names the relationship collection. *)
Lemma artifact_paths_inconsistent_witness :
  let report :=
    Obj [("users", Obj [("ssn_1", Obj [("err", Obj [("code", Num (Int 11000))])])])] in
  let s := {| console := [];
              files := {[ Utils.inputFile := Json report;
                          "output/duplicateKeys.json"
                            := Json (Arr [Example.target Example.rels ["client"]]) ]} |} in
  let run := Driver1.main Example.healthy (fun _ => true) (fun _ => true)
               {| uri_ok := true; close_ok := true |} s in
  fst run = Ok tt
  /\ files (snd run) !! "output/duplicates_json/users_duplicates.json" = None
  /\ exists results,
       files (snd run) !! "output/duplicaties_json/sharan.rels.clientContact_duplicates.json"
       = Some (JSON_stringify (Driver1.report Example.rels results)).
Proof.
  intros report s run. subst run.
  destruct (artifact_paths_inconsistent Example.healthy (fun _ => true) (fun _ => true)
              {| uri_ok := true; close_ok := true |} s)
    as (s1 & _ & _ & _ & _ & Hscan & _).
  destruct (Hscan (Arr [Example.target Example.rels ["client"]]))
    as (rs & s2 & s4 & Hfind & Hmain & Hreports & Hother); try reflexivity.
  rewrite Hmain. cbn [fst snd]. split; [reflexivity |]. split.
  - rewrite Hother; [reflexivity | discriminate |].
    intros name. simpl. discriminate.
  - assert (Hrs : fst (Driver1.findDuplicates Example.healthy
                         (Arr [Example.target Example.rels ["client"]]) Example.fresh)
                  = Ok rs).
    { rewrite findDuplicates1_fst by reflexivity.
      rewrite (config_loop1_fst Example.healthy _ _ Example.fresh s1).
      rewrite <- findDuplicates1_fst by reflexivity. rewrite Hfind. reflexivity. }
    vm_compute in Hrs. injection Hrs as <-.
    eexists. apply (Hreports Example.rels); [| reflexivity].
    vm_compute. left. reflexivity.
Defined.

(** X14.  How the first driver's run ends does not depend on the failure
    report or on what the generator does.  The run exits with status 1
    when [output/duplicateKeys.json] is missing or is not JSON; with a plan
    there, it ends with an uncaught exception when the client cannot be
    made or cannot be closed, exits with status 1 when the report
    directory cannot be made, and completes otherwise, whatever fails in
    the scan or in writing the reports. *)
Theorem first_driver_exit_status
  (db : Store) (write_ok mkdir_ok : string -> bool) (client : Client) (s : state) :
  fst (Driver1.main db write_ok mkdir_ok client s)
  = match files s !! "output/duplicateKeys.json" with
    | Some (Json _) =>
        if uri_ok client
        then if close_ok client
             then if mkdir_ok "output/duplicaties_json" then Ok tt else Exit 1
             else Throw (MongoError "close")
        else Throw (MongoError "MongoClient")
    | _ => Exit 1
    end.
Proof.
  destruct (main1_run db write_ok mkdir_ok client s) as (s1 & Hgen & ->).
  pose proof (generateConfigs_run write_ok s) as Hleft. rewrite Hgen in Hleft.
  change Driver1.default_configFile with "output/duplicateKeys.json".
  rewrite (Hleft "output/duplicateKeys.json") by discriminate.
  destruct (files s !! "output/duplicateKeys.json") as [[plan |] |]; try reflexivity.
  destruct (findDuplicates1_call_run db client plan s1) as (rs & s2 & _ & _ & ->).
  destruct (uri_ok client); [| reflexivity].
  destruct (close_ok client); [| reflexivity].
  cbn zeta. change Driver1.outputDir with "output/duplicaties_json".
  destruct (mkdir_ok "output/duplicaties_json"); [| reflexivity].
  match goal with |- context [Driver1.write_loop _ ?es ?st] =>
    pose proof (write_loop1_run write_ok es st) as Hw;
    destruct (Driver1.write_loop write_ok es st) as [[[] | e | c] s'] end;
    try contradiction.
  reflexivity.
Qed.

(** ** The index audit *)

Lemma audit_bind_run {A B} (m : IndexAudit.M A) (k : A -> IndexAudit.M B) s :
  @mbind IndexAudit.M IndexAudit.M_bind A B k m s =
  match m s with
  | (Ok a, s') => k a s'
  | (Throw e, s') => (Throw e, s')
  | (Exit c, s') => (Exit c, s')
  end.
Proof. reflexivity. Qed.


Lemma map_with_usage_no_exit usageMap indexes : no_exit (IndexAudit.map_with_usage usageMap indexes).
Proof.
  induction indexes as [| i rest IH]; cbn [IndexAudit.map_with_usage].
  - discriminate.
  - apply bind_no_exit.
    + unfold IndexAudit.with_usage. apply bind_no_exit; [apply get_no_exit' | discriminate].
    + intros x. apply bind_no_exit; [exact IH | discriminate].
Qed.


Section AuditFacts.
Variable db : IndexAudit.Store.
Variable write_ok : string -> bool.

Lemma usage_stats_run collectionName s :
  exists s',
    IndexAudit.usage_stats db collectionName s = (Ok (audit_stats db collectionName), s')
    /\ IndexAudit.files s' = IndexAudit.files s.
Proof.
  unfold IndexAudit.usage_stats, IndexAudit.try_catch, IndexAudit.indexStats, audit_stats.
  destruct (IndexAudit.indexStats_ok db collectionName).
  - exists s. split; reflexivity.
  - eexists. split; reflexivity.
Qed.

Lemma write_report_run collectionName indexCount indexesWithUsage s :
  exists s',
    IndexAudit.write_report write_ok collectionName indexCount indexesWithUsage s = (Ok tt, s')
    /\ (forall p, p <> IndexAudit.report_filename collectionName ->
                  IndexAudit.files s' !! p = IndexAudit.files s !! p)
    /\ (write_ok (IndexAudit.report_filename collectionName) = false ->
        IndexAudit.files s' = IndexAudit.files s)
    /\ (write_ok (IndexAudit.report_filename collectionName) = true ->
        IndexAudit.files s' !! IndexAudit.report_filename collectionName
        = Some (JSON_stringify (IndexAudit.output collectionName indexCount indexesWithUsage))).
Proof.
  unfold IndexAudit.write_report, IndexAudit.try_catch. rewrite audit_bind_run.
  unfold IndexAudit.writeFile.
  destruct (write_ok (IndexAudit.report_filename collectionName)) eqn:Hw; cbn.
  - eexists. split; [reflexivity |]. cbn. split; [| split].
    + intros p Hp. apply lookup_insert_ne. congruence.
    + discriminate.
    + intros _. apply lookup_insert_eq.
  - eexists. split; [reflexivity |]. cbn. split; [| split]; try reflexivity. discriminate.
Qed.

Lemma report_step_run collectionName indexes s :
  match IndexAudit.report_step db write_ok collectionName indexes s with
  | (Ok _, s') =>
      (forall p, p <> IndexAudit.report_filename collectionName ->
                 IndexAudit.files s' !! p = IndexAudit.files s !! p)
      /\ ((length indexes < 64)%nat \/ write_ok (IndexAudit.report_filename collectionName) = false ->
          IndexAudit.files s' = IndexAudit.files s)
      /\ ((64 <= length indexes)%nat ->
          write_ok (IndexAudit.report_filename collectionName) = true ->
          exists mapped,
            IndexAudit.map_with_usage
              (IndexAudit.build_usageMap (audit_stats db collectionName)) indexes = Ok mapped
            /\ IndexAudit.files s' !! IndexAudit.report_filename collectionName
               = Some (JSON_stringify
                         (IndexAudit.output collectionName (length indexes)
                            (IndexAudit.sort mapped))))
  | (Throw _, s') =>
      IndexAudit.files s' = IndexAudit.files s
      /\ (64 <= length indexes)%nat
      /\ exists e, IndexAudit.map_with_usage
                     (IndexAudit.build_usageMap (audit_stats db collectionName)) indexes
                   = Throw e
  | (Exit _, _) => False
  end.
Proof.
  unfold IndexAudit.report_step.
  destruct (64 <=? length indexes)%nat eqn:Hlen.
  2: { apply Nat.leb_gt in Hlen. cbn. split; [reflexivity |]. split; [reflexivity |]. lia. }
  apply Nat.leb_le in Hlen.
  rewrite audit_bind_run. cbn [IndexAudit.log]. rewrite audit_bind_run.
  match goal with |- context [IndexAudit.usage_stats db collectionName ?s1] =>
    destruct (usage_stats_run collectionName s1) as (s2 & -> & Hfiles2) end.
  cbn [IndexAudit.files] in Hfiles2.
  rewrite audit_bind_run. unfold IndexAudit.lift.
  destruct (IndexAudit.map_with_usage _ indexes) as [mapped | e | c] eqn:Hmap.
  - destruct (write_report_run collectionName (length indexes) (IndexAudit.sort mapped) s2)
      as (s' & -> & Hother & Hfail & Hdone).
    rewrite Hfiles2 in *. split; [exact Hother |]. split.
    + intros [H | H]; [lia | exact (Hfail H)].
    + intros _ Hw. exists mapped. split; [reflexivity | exact (Hdone Hw)].
  - split; [exact Hfiles2 | split; [exact Hlen | exists e; reflexivity]].
  - destruct (map_with_usage_no_exit _ _ _ Hmap).
Qed.
End AuditFacts.

Section AuditLoop.
Variable db : IndexAudit.Store.
Variable write_ok : string -> bool.

Lemma audit_loop_cons collectionName rest s :
  IndexAudit.collection_loop db write_ok (collectionName :: rest) s
  = if IndexAudit.indexes_ok db collectionName
    then match IndexAudit.report_step db write_ok collectionName
                 (IndexAudit.indexes_of db collectionName)
                 {| IndexAudit.console := IndexAudit.console s
                      ++ [IndexAudit.Processing collectionName];
                    IndexAudit.files := IndexAudit.files s |} with
         | (Ok _, s') => IndexAudit.collection_loop db write_ok rest s'
         | (Throw e, s') => (Throw e, s')
         | (Exit c, s') => (Exit c, s')
         end
    else IndexAudit.collection_loop db write_ok rest
           {| IndexAudit.console := IndexAudit.console s
                ++ [IndexAudit.Processing collectionName;
                    IndexAudit.IndexesFailed collectionName (MongoError "indexes")];
              IndexAudit.files := IndexAudit.files s |}.
Proof.
  cbn [IndexAudit.collection_loop]. rewrite audit_bind_run. cbn [IndexAudit.log].
  rewrite audit_bind_run. unfold IndexAudit.try_catch. rewrite audit_bind_run.
  unfold IndexAudit.indexes.
  destruct (IndexAudit.indexes_ok db collectionName).
  - cbn [mret IndexAudit.M_ret]. rewrite audit_bind_run. reflexivity.
  - unfold IndexAudit.lift. rewrite audit_bind_run. cbn [IndexAudit.log mret IndexAudit.M_ret].
    cbn [IndexAudit.console IndexAudit.files]. rewrite <- app_assoc. reflexivity.
Qed.

Lemma audit_loop_files collections : forall s,
  match IndexAudit.collection_loop db write_ok collections s with
  | (Exit _, _) => False
  | (_, s') =>
      forall p, (forall c, In c collections -> audit_large db c ->
                           write_ok (IndexAudit.report_filename c) = true ->
                           p <> IndexAudit.report_filename c) ->
                IndexAudit.files s' !! p = IndexAudit.files s !! p
  end.
Proof.
  induction collections as [| c rest IH]; intros s.
  - cbn. reflexivity.
  - rewrite audit_loop_cons.
    destruct (IndexAudit.indexes_ok db c) eqn:Hok.
    + match goal with |- context [IndexAudit.report_step db write_ok c ?l ?st] =>
        pose proof (report_step_run db write_ok c l st) as Hstep;
        destruct (IndexAudit.report_step db write_ok c l st) as [[[] | e | x] s1] end.
      * destruct Hstep as (Hother & Hsame & _). cbn [IndexAudit.files] in *.
        assert (Hc : forall p,
                   (forall c', In c' (c :: rest) -> audit_large db c' ->
                               write_ok (IndexAudit.report_filename c') = true ->
                               p <> IndexAudit.report_filename c') ->
                   IndexAudit.files s1 !! p = IndexAudit.files s !! p).
        { intros p Hp.
          destruct (le_lt_dec 64 (length (IndexAudit.indexes_of db c))) as [Hlen | Hlen];
            [| rewrite Hsame by (left; exact Hlen); reflexivity].
          destruct (write_ok (IndexAudit.report_filename c)) eqn:Hw;
            [| rewrite Hsame by (right; reflexivity); reflexivity].
          apply Hother, Hp; [left; reflexivity | split; assumption | exact Hw]. }
        specialize (IH s1).
        destruct (IndexAudit.collection_loop db write_ok rest s1) as [[[] | e | x] s2];
          try exact IH;
          (intros p Hp; rewrite IH by (intros c' Hc'; apply Hp; right; exact Hc');
           apply Hc; exact Hp).
      * destruct Hstep as [Hsame _]. cbn [IndexAudit.files] in Hsame.
        intros p _. rewrite Hsame. reflexivity.
      * exact Hstep.
    + match goal with |- context [IndexAudit.collection_loop db write_ok rest ?st] =>
        specialize (IH st);
        destruct (IndexAudit.collection_loop db write_ok rest st) as [[[] | e | x] s2] end;
        try exact IH;
        (intros p Hp; apply IH; intros c' Hc'; apply Hp; right; exact Hc').
Qed.

End AuditLoop.

(** Whatever fails between making the client and closing it is caught:
    that part of the script always returns, and the only files it can
    change are the reports of listed collections whose indexes can be
    listed and are at least 64. *)
Lemma audit_main_run
  (db : IndexAudit.Store) (write_ok mkdir_ok : string -> bool) (s : IndexAudit.state) :
  exists s',
    IndexAudit.main db write_ok mkdir_ok s = (Ok tt, s')
    /\ forall p,
         (forall c, In c (IndexAudit.collection_names db) ->
                    IndexAudit.indexes_ok db c = true ->
                    (64 <= length (IndexAudit.indexes_of db c))%nat ->
                    p <> "output/indexes_json/" +:+ c +:+ "_indexes.json") ->
         IndexAudit.files s' !! p = IndexAudit.files s !! p.
Proof.
  unfold IndexAudit.main, IndexAudit.try_catch. rewrite audit_bind_run.
  unfold IndexAudit.connect.
  destruct (IndexAudit.connect_ok db); [| eexists; split; reflexivity].
  cbn [mret IndexAudit.M_ret]. rewrite audit_bind_run. unfold IndexAudit.listCollections.
  destruct (IndexAudit.listCollections_ok db); [| eexists; split; reflexivity].
  cbn [mret IndexAudit.M_ret]. rewrite audit_bind_run. unfold IndexAudit.mkdir.
  destruct (mkdir_ok IndexAudit.outputDir); [| eexists; split; reflexivity].
  cbn [mret IndexAudit.M_ret].
  pose proof (audit_loop_files db write_ok (IndexAudit.collection_names db) s) as Hloop.
  destruct (IndexAudit.collection_loop db write_ok (IndexAudit.collection_names db) s)
    as [[[] | e | x] s1]; try contradiction.
  - exists s1. split; [reflexivity |]. intros p Hp. apply Hloop.
    intros c Hc [Hok Hlen] _. exact (Hp c Hc Hok Hlen).
  - eexists. split; [reflexivity |]. cbn [IndexAudit.log IndexAudit.files].
    intros p Hp. apply Hloop. intros c Hc [Hok Hlen] _. exact (Hp c Hc Hok Hlen).
Qed.

(** X16.  The index audit ends with an uncaught exception exactly when
    its client cannot be made, before anything is done, or cannot be
    closed, after everything is done; it never exits.  Every failure of
    the store or of the file system in between is caught.  The only files
    the script can change are the reports
    [output/indexes_json/<name>_indexes.json] of listed collections whose
    indexes can be listed and are at least 64. *)
Theorem audit_reports_only_large_collections
  (db : IndexAudit.Store) (write_ok mkdir_ok : string -> bool) (client : Client)
  (s : IndexAudit.state) :
  exists s',
    IndexAudit.script db write_ok mkdir_ok client s
    = (if uri_ok client
       then if close_ok client then Ok tt else Throw (MongoError "close")
       else Throw (MongoError "MongoClient"),
       s')
    /\ (uri_ok client = false -> s' = s)
    /\ (uri_ok client = true -> IndexAudit.main db write_ok mkdir_ok s = (Ok tt, s'))
    /\ forall p,
         (forall c, In c (IndexAudit.collection_names db) ->
                    IndexAudit.indexes_ok db c = true ->
                    (64 <= length (IndexAudit.indexes_of db c))%nat ->
                    p <> "output/indexes_json/" +:+ c +:+ "_indexes.json") ->
         IndexAudit.files s' !! p = IndexAudit.files s !! p.
Proof.
  destruct (audit_main_run db write_ok mkdir_ok s) as (s1 & Hmain & Hfiles).
  unfold IndexAudit.script, IndexAudit.new_MongoClient. rewrite audit_bind_run.
  destruct (uri_ok client).
  - cbn [mret IndexAudit.M_ret]. unfold IndexAudit.try_finally. rewrite Hmain.
    unfold IndexAudit.close. exists s1.
    destruct (close_ok client); (split; [reflexivity |]);
      (split; [discriminate |]); (split; [intros _; reflexivity | exact Hfiles]).
  - exists s. split; [reflexivity |]. split; [reflexivity |].
    split; [discriminate | reflexivity].
Qed.


Lemma audit_reports_only_large_collections_witness :
  IndexAudit.files (snd (IndexAudit.script AuditExample.db (fun _ => true) (fun _ => true)
                           {| uri_ok := true; close_ok := false |} AuditExample.fresh))
    !! "output/indexes_json/orders_indexes.json" = None.
Proof.
  destruct (audit_reports_only_large_collections AuditExample.db (fun _ => true)
              (fun _ => true) {| uri_ok := true; close_ok := false |} AuditExample.fresh)
    as (s' & Hrun & _ & _ & Hfiles).
  rewrite Hrun. cbn [snd].
  rewrite (Hfiles "output/indexes_json/orders_indexes.json"); [reflexivity |].
  intros c [<- | [<- | [<- | []]]] Hok Hlen; try discriminate.
  vm_compute in Hlen. lia.
Defined.


(** ** Usage counts and their order *)

Lemma audit_sort_insert_perm a sorted : IndexAudit.sort_insert a sorted ≡ₚ a :: sorted.
Proof.
  induction sorted as [| b rest IH]; simpl.
  - reflexivity.
  - destruct (IndexAudit.stays_before a b); [reflexivity |].
    rewrite IH. apply Permutation_swap.
Qed.

Lemma audit_sort_perm l : IndexAudit.sort l ≡ₚ l.
Proof.
  induction l as [| a l IH]; simpl; [reflexivity |].
  rewrite audit_sort_insert_perm, IH. reflexivity.
Qed.

(** X18.  Sorting the indexes of a report loses and repeats none.  When
    every usage count is a number, the report lists the indexes by usage
    count, highest first. *)
Theorem audit_indexes_sorted_by_usage (l : list IndexAudit.indexWithUsage) :
  IndexAudit.sort l ≡ₚ l
  /\ (Forall (fun x => exists n, IndexAudit.usageCount x = IndexAudit.Count n) l ->
      StronglySorted
        (fun a b => forall x y,
           IndexAudit.usageCount a = IndexAudit.Count x ->
           IndexAudit.usageCount b = IndexAudit.Count y -> y <= x)
        (IndexAudit.sort l)).
Proof.
  split; [apply audit_sort_perm |].
  set (R := fun a b => forall x y,
              IndexAudit.usageCount a = IndexAudit.Count x ->
              IndexAudit.usageCount b = IndexAudit.Count y -> y <= x).
  assert (Hins : forall a sorted,
             (exists n, IndexAudit.usageCount a = IndexAudit.Count n) ->
             Forall (fun x => exists n, IndexAudit.usageCount x = IndexAudit.Count n) sorted ->
             StronglySorted R sorted -> StronglySorted R (IndexAudit.sort_insert a sorted)).
  { intros a sorted [n Ha] Hall Hsorted.
    induction Hsorted as [| b rest Hrest IH Hb]; simpl.
    - repeat constructor.
    - apply Forall_cons in Hall as [[m Hbm] Hall].
      unfold IndexAudit.stays_before. rewrite Ha, Hbm.
      destruct (m <=? n) eqn:E.
      + apply Z.leb_le in E. constructor; [constructor; assumption |].
        constructor.
        * intros x y Hx Hy. rewrite Ha in Hx. rewrite Hbm in Hy.
          injection Hx as <-. injection Hy as <-. exact E.
        * eapply Forall_impl; [exact Hb |]. intros c Hc x y Hx Hy.
          rewrite Ha in Hx. injection Hx as <-.
          specialize (Hc m y Hbm Hy). lia.
      + apply Z.leb_gt in E. constructor; [apply IH; exact Hall |].
        rewrite audit_sort_insert_perm. constructor; [| exact Hb].
        intros x y Hx Hy. rewrite Hbm in Hx. rewrite Ha in Hy.
        injection Hx as <-. injection Hy as <-. lia. }
  intros Hall. induction Hall as [| a l Ha Hall IH]; simpl; [constructor |].
  apply Hins; [exact Ha | | exact IH].
  rewrite audit_sort_perm. exact Hall.
Qed.

Lemma audit_indexes_sorted_by_usage_witness :
  StronglySorted
    (fun a b => forall x y,
       IndexAudit.usageCount a = IndexAudit.Count x ->
       IndexAudit.usageCount b = IndexAudit.Count y -> y <= x)
    (IndexAudit.sort
       [{| IndexAudit.index := AuditExample.index_named "a";
           IndexAudit.usageCount := IndexAudit.Count 3 |};
        {| IndexAudit.index := AuditExample.index_named "b";
           IndexAudit.usageCount := IndexAudit.Count 9 |};
        {| IndexAudit.index := AuditExample.index_named "c";
           IndexAudit.usageCount := IndexAudit.Count 0 |}]).
Proof.
  apply (proj2 (audit_indexes_sorted_by_usage
    [{| IndexAudit.index := AuditExample.index_named "a";
        IndexAudit.usageCount := IndexAudit.Count 3 |};
     {| IndexAudit.index := AuditExample.index_named "b";
        IndexAudit.usageCount := IndexAudit.Count 9 |};
     {| IndexAudit.index := AuditExample.index_named "c";
        IndexAudit.usageCount := IndexAudit.Count 0 |}])).
  repeat constructor; eexists; reflexivity.
Defined.

Lemma assoc_obj_set {A} k k' (v : A) props :
  assoc k (obj_set k' v props) = if String.eqb k k' then Some v else assoc k props.
Proof.
  induction props as [| [k0 v0] rest IH]; simpl.
  - reflexivity.
  - destruct (String.eqb_spec k' k0) as [-> | Hne]; simpl.
    + destruct (String.eqb k k0); reflexivity.
    + rewrite IH. destruct (String.eqb_spec k k0) as [-> | Hk]; [| reflexivity].
      destruct (String.eqb_spec k0 k') as [E | _]; [congruence | reflexivity].
Qed.

Lemma find_app_first {A} (f : A -> bool) (l1 l2 : list A) :
  List.find f (l1 ++ l2)
  = match List.find f l1 with Some x => Some x | None => List.find f l2 end.
Proof.
  induction l1 as [| x l1 IH]; [reflexivity |].
  cbn [app List.find]. destruct (f x); [reflexivity | exact IH].
Qed.

Lemma usageMap_lookup stats : forall usageMap key,
  assoc key (fold_left IndexAudit.usage_set stats usageMap)
  = match List.find (fun st => String.eqb key (fst st) && negb (String.eqb key "__proto__"))
                    (rev stats) with
    | Some st => Some (default 0 (snd st))
    | None => assoc key usageMap
    end.
Proof.
  induction stats as [| st stats IH]; intros usageMap key; [reflexivity |].
  cbn [fold_left rev]. rewrite IH. rewrite find_app_first.
  destruct (List.find _ (rev stats)); [reflexivity |].
  cbn [List.find]. unfold IndexAudit.usage_set.
  destruct (String.eqb_spec key (fst st)) as [-> | Hne]; cbn [andb].
  - destruct (String.eqb (fst st) "__proto__"); cbn [negb]; [reflexivity |].
    rewrite assoc_obj_set, String.eqb_refl. reflexivity.
  - destruct (String.eqb (fst st) "__proto__"); [reflexivity |].
    rewrite assoc_obj_set. destruct (String.eqb_spec key (fst st)); [contradiction | reflexivity].
Qed.

(** X19.  The usage count of an index is the [accesses.ops] of the last
    statistics record that bears its name, 0 when that record has none,
    and 0 when no record bears its name.  The exception is a name that is
    a member of [Object.prototype]: with no record of its own the lookup
    finds the inherited member, not a number, and for [__proto__] it does so
    whatever the records say. *)
Theorem usage_count_from_last_record (stats : list (string * option Z)) (key : string) :
  IndexAudit.usage_of (IndexAudit.build_usageMap stats) key
  = match List.find (fun st => String.eqb key (fst st)) (rev stats) with
    | Some st =>
        if String.eqb key "__proto__" then IndexAudit.Inherited key
        else IndexAudit.Count (default 0 (snd st))
    | None =>
        if existsb (String.eqb key) IndexAudit.inherited_members
        then IndexAudit.Inherited key
        else IndexAudit.Count 0
    end.
Proof.
  unfold IndexAudit.usage_of, IndexAudit.build_usageMap. rewrite usageMap_lookup.
  destruct (String.eqb_spec key "__proto__") as [-> | Hne].
  - assert (Hnone : forall l : list (string * option Z),
               List.find (fun st => String.eqb "__proto__" (fst st) && negb true) l = None).
    { induction l as [| x l IH]; simpl; [reflexivity |]. rewrite andb_false_r. exact IH. }
    rewrite Hnone. cbn [assoc].
    destruct (List.find _ (rev stats)); reflexivity.
  - assert (Hsame : forall l : list (string * option Z),
               List.find (fun st => String.eqb key (fst st) && negb false) l
               = List.find (fun st => String.eqb key (fst st)) l).
    { induction l as [| x l IH]; cbn [List.find]; [reflexivity |].
      rewrite IH. cbn [negb]. rewrite andb_true_r. reflexivity. }
    rewrite Hsame. destruct (List.find _ (rev stats)); reflexivity.
Qed.

(** ** The relationship test and the log of a field scan *)

Lemma prefix_empty (s : string) : String.prefix EmptyString s = true.
Proof. destruct s; reflexivity. Qed.

Lemma prefix_append (t b : string) : String.prefix t (t +:+ b) = true.
Proof.
  induction t as [| a t IH]; [apply prefix_empty |].
  change (String a t +:+ b) with (String a (t +:+ b)). cbn [String.prefix].
  destruct (ascii_dec a a) as [_ | Hne]; [exact IH | contradiction].
Qed.

Lemma prefix_split (t s : string) : String.prefix t s = true -> exists b, s = t +:+ b.
Proof.
  revert s. induction t as [| a t IH]; intros s H.
  - exists s. reflexivity.
  - destruct s as [| c s]; [discriminate |]. cbn [String.prefix] in H.
    destruct (ascii_dec a c) as [-> | _]; [| discriminate].
    destruct (IH s H) as [b ->]. exists b. reflexivity.
Qed.

Lemma includes_prefix (s t : string) : String.prefix t s = true -> includes s t = true.
Proof. destruct s; cbn [includes]; intros ->; reflexivity. Qed.

Lemma includes_iff (s t : string) :
  includes s t = true <-> exists a b, s = a +:+ t +:+ b.
Proof.
  split.
  - induction s as [| c s IH]; cbn [includes]; intros H; apply orb_true_iff in H as [H | H].
    + destruct (prefix_split _ _ H) as [b ->]. exists EmptyString, b. reflexivity.
    + discriminate.
    + destruct (prefix_split _ _ H) as [b Hb]. exists EmptyString, b. exact Hb.
    + destruct (IH H) as (a & b & ->). exists (String c a), b. reflexivity.
  - intros (a & b & ->). induction a as [| c a IH].
    + change (EmptyString +:+ t +:+ b) with (t +:+ b).
      apply includes_prefix, prefix_append.
    + change (String c a +:+ t +:+ b) with (String c (a +:+ t +:+ b)).
      cbn [includes]. rewrite IH. apply orb_true_r.
Qed.

(** X20.  A collection counts as a relationship collection exactly when
    the letters [rels] occur somewhere in its name; a name that is a
    number, a boolean or an object has no such test and makes it throw. *)
Theorem relationship_test_is_substring (collectionName : value) :
  (forall s, collectionName = Str s ->
     (Driver2.includes_rels collectionName = Ok true
      <-> exists a b, s = a +:+ "rels" +:+ b)
     /\ (Driver2.includes_rels collectionName = Ok false
         <-> ~ exists a b, s = a +:+ "rels" +:+ b))
  /\ (match collectionName with
      | Str _ | Arr _ => True
      | _ => exists e, Driver2.includes_rels collectionName = Throw e
      end).
Proof.
  split.
  - intros s ->. cbn [Driver2.includes_rels]. rewrite <- includes_iff.
    destruct (includes s "rels"); split; split; intros H;
      try reflexivity; try discriminate; congruence.
  - destruct collectionName; try exact I; eexists; reflexivity.
Qed.

Lemma relationship_test_is_substring_witness :
  Driver2.includes_rels (Str "barrels") = Ok true.
Proof.
  apply (proj2 (proj1 (proj1 (relationship_test_is_substring (Str "barrels"))
                         "barrels" eq_refl))).
  exists "bar", EmptyString. reflexivity.
Defined.


